(** * Ember+ : the S101 stream decoder and the Glow typed-argument views

    A shallow embedding of
    - [libs101/Headers/s101/StreamDecoder.hpp] (module [S101]), and
    - [libember/Headers/ember/glow/GlowInvocation.hpp] and
      [libember/Headers/ember/glow/GlowFunctionBase.hpp] (module [Glow]),
    together with the properties the specification states about them.

    Bytes and CRC values are [Z] with the C++ conversions written out; the
    decoder is a record that is passed explicitly; a callback acts on a
    world [W] that the caller owns.  The DOM is a store of objects addressed
    by pointers, threaded through a small state-and-failure monad. *)

From Stdlib Require Import ZArith List Lia Bool.
From stdpp Require Import base option list gmap.
Import ListNotations.

(* ===================================================================== *)
(** * Part I : libs101, the stream decoder                                *)
(* ===================================================================== *)

Module S101.

Local Open Scope Z_scope.

(** ** What [StreamDecoder.hpp] includes but the sources do not contain *)

(** [Byte.hpp]: the framing bytes.  Taken as an interface; the decoder is
    verified for every choice of the four constants. *)
Class Byte := {
  BoF : Z;   (* Byte::BoF, start of frame *)
  EoF : Z;   (* Byte::EoF, end of frame *)
  CE  : Z;   (* Byte::CE, escape *)
  XOR : Z    (* Byte::XOR, the mask applied to an escaped byte *)
}.

(** [util/Crc16.hpp]: the running checksum, [Crc16::add(crc, byte)]. *)
Class Crc16 := {
  Crc16_add : Z -> Z -> Z
}.

(** Modelled from the spec: [Byte.hpp] is missing.  The spec asks for three
    distinct reserved byte values and a fixed unescape mask; these are the
    values of the S101 wire format, used to run the decoder on concrete
    streams. *)
Definition s101_bytes : Byte :=
  {| BoF := 0xFE; EoF := 0xFF; CE := 0xFD; XOR := 0x20 |}.

(** Modelled from the spec: [util/Crc16.hpp] is missing.  "A 16-bit running
    CRC (CCITT/X.25 variant), initialized to 0xFFFF per frame, updated one
    byte at a time": the reflected CCITT polynomial 0x8408, one table entry
    computed by eight shift steps. *)
Fixpoint crc_shift (n : nat) (r : Z) : Z :=
  match n with
  | O => r
  | S n' =>
      crc_shift n'
        (if Z.odd r then Z.lxor (Z.shiftr r 1) 0x8408 else Z.shiftr r 1)
  end.

Definition crc_table (i : Z) : Z := crc_shift 8 i.

Definition x25_add (crc byte : Z) : Z :=
  Z.land (Z.lxor (Z.shiftr crc 8) (crc_table (Z.land (Z.lxor crc byte) 0xFF)))
         0xFFFF.

Definition x25_crc : Crc16 := {| Crc16_add := x25_add |}.

(** ** The decoder *)

(** [static_cast<value_type>(input)] with [value_type = unsigned char]. *)
Definition static_cast (input : Z) : Z := input mod 256.

(** The three data members of [StreamDecoder]. *)
Record StreamDecoder := mkStreamDecoder {
  m_bytes  : list Z;
  m_escape : bool;
  m_crc    : Z
}.

(** The constructor: [m_bytes] default-constructed, [m_escape(false)],
    [m_crc(0xFFFF)]. *)
Definition StreamDecoder_new : StreamDecoder :=
  {| m_bytes := []; m_escape := false; m_crc := 0xFFFF |}.

(** [reset()]. *)
Definition reset (d : StreamDecoder) : StreamDecoder :=
  let d := {| m_bytes := []; m_escape := m_escape d; m_crc := m_crc d |} in
  let d := {| m_bytes := m_bytes d; m_escape := false; m_crc := m_crc d |} in
  {| m_bytes := m_bytes d; m_escape := m_escape d; m_crc := 0xFFFF |}.

(** [m_bytes.push_back(x)]: the vector stores [value_type], so the pushed
    [int] is converted. *)
Definition push_back (x : Z) (d : StreamDecoder) : StreamDecoder :=
  {| m_bytes := m_bytes d ++ [static_cast x];
     m_escape := m_escape d; m_crc := m_crc d |}.

Definition set_escape (e : bool) (d : StreamDecoder) : StreamDecoder :=
  {| m_bytes := m_bytes d; m_escape := e; m_crc := m_crc d |}.

Definition set_crc (c : Z) (d : StreamDecoder) : StreamDecoder :=
  {| m_bytes := m_bytes d; m_escape := m_escape d; m_crc := c |}.

(** The iterator range [m_bytes.begin(), m_bytes.end() - 2). *)
Definition payload (d : StreamDecoder) : list Z :=
  firstn (length (m_bytes d) - 2) (m_bytes d).

Section Decoder.
Context {byte_consts : Byte} {crc16 : Crc16}.

(** The callback acts on a world [W] owned by the caller; it is handed
    the payload range and never the decoder. *)
Context {W : Type}.

(** [invokeStatelessCallback(first, last, callback)]. *)
Definition invokeStatelessCallback
    (range : list Z) (callback : list Z -> W -> W) : W -> W :=
  callback range.

(** [readByte(input, callback, state)]. *)
Definition readByte_state {StateType : Type}
    (input : Z) (callback : list Z -> StateType -> W -> W)
    (state : StateType) (d : StreamDecoder) (w : W) : StreamDecoder * W :=
  let byte := static_cast input in
  if m_escape d then
    let d := set_escape false d in
    let d := push_back (Z.lxor byte XOR) d in
    let d := set_crc (Crc16_add (m_crc d) (Z.lxor byte XOR)) d in
    (d, w)
  else if byte =? BoF then
    (reset d, w)
  else if byte =? EoF then
    let w :=
      if (m_crc d =? 0xF0B8) && (1 <? length (m_bytes d))%nat
      then callback (payload d) state w
      else w in
    (reset d, w)
  else if byte =? CE then
    (set_escape true d, w)
  else
    let d := push_back byte d in
    let d := set_crc (Crc16_add (m_crc d) byte) d in
    (d, w).

(** [readByte(input, callback)]. *)
Definition readByte
    (input : Z) (callback : list Z -> W -> W)
    (d : StreamDecoder) (w : W) : StreamDecoder * W :=
  readByte_state input invokeStatelessCallback callback d w.

(** [read(first, last, callback, state)]: the loop over [first, last)
    that hands each dereferenced element to [readByte]. *)
Fixpoint read_state {StateType : Type}
    (range : list Z) (callback : list Z -> StateType -> W -> W)
    (state : StateType) (d : StreamDecoder) (w : W) : StreamDecoder * W :=
  match range with
  | [] => (d, w)
  | first :: range' =>
      let '(d, w) := readByte_state first callback state d w in
      read_state range' callback state d w
  end.

(** [read(first, last, callback)]. *)
Fixpoint read
    (range : list Z) (callback : list Z -> W -> W)
    (d : StreamDecoder) (w : W) : StreamDecoder * W :=
  match range with
  | [] => (d, w)
  | first :: range' =>
      let '(d, w) := readByte first callback d w in
      read range' callback d w
  end.

(** The words of the specification for [read]: [readByte] on each byte in
    iteration order, one at a time. *)
Definition read_bytewise
    (range : list Z) (callback : list Z -> W -> W)
    (d : StreamDecoder) (w : W) : StreamDecoder * W :=
  fold_left (fun dw b => readByte b callback (fst dw) (snd dw)) range (d, w).

End Decoder.

(** A callback that records each payload it is invoked with: the world is
    the log of invocations. *)
Definition record_payload (range : list Z) (log : list (list Z))
  : list (list Z) := log ++ [range].

(** Decoder states to run the code on, each named after the stream that
    leads to it from a new decoder (with the S101 bytes and CRC above). *)

(** After [FE 01 FD]: one byte buffered, escape pending. *)
Definition pending_after_01 : StreamDecoder :=
  {| m_bytes := [0x01]; m_escape := true; m_crc := 0x1E0E |}.

(** After [FE 01 02]: a frame in progress. *)
Definition partial_01_02 : StreamDecoder :=
  {| m_bytes := [0x01; 0x02]; m_escape := false; m_crc := 0xCA72 |}.

(** After [FE 09]: another frame in progress. *)
Definition partial_09 : StreamDecoder :=
  {| m_bytes := [0x09]; m_escape := false; m_crc := 0x9246 |}.

(** After [FE 01 02 8D 35]: the payload [01 02] and its checksum. *)
Definition complete_01_02 : StreamDecoder :=
  {| m_bytes := [0x01; 0x02; 0x8D; 0x35]; m_escape := false;
     m_crc := 0xF0B8 |}.

(** After [FE 00 00]: the checksum of the empty payload and nothing else. *)
Definition complete_empty : StreamDecoder :=
  {| m_bytes := [0x00; 0x00]; m_escape := false; m_crc := 0xF0B8 |}.

(** A callback that ignores the caller state and records the payload. *)
Definition record_payload_state (range : list Z) (_ : unit)
    (log : list (list Z)) : list (list Z) := record_payload range log.

(** ** Notions for whole streams *)

(** The checksum of a byte sequence: [Crc16::add] folded over it from the
    initial value of [m_crc]. *)
Definition crc_of {crc16 : Crc16} (bytes : list Z) : Z :=
  fold_left Crc16_add bytes 0xFFFF.

(** The number of input elements that [readByte] reads as [Byte::EoF]. *)
Definition count_EoF {byte_consts : Byte} (range : list Z) : nat :=
  length (List.filter (fun input => static_cast input =? EoF) range).

(** The three byte values [readByte] switches on. *)
Definition is_marker {byte_consts : Byte} (x : Z) : bool :=
  (x =? BoF) || (x =? EoF) || (x =? CE).

(** What the cases of the switch and the conversions to [value_type] take
    for granted: the four constants are byte values and the three case
    labels differ. *)
Definition byte_constants_ok {byte_consts : Byte} : Prop :=
  (0 <= BoF < 256 /\ 0 <= EoF < 256 /\ 0 <= CE < 256 /\ 0 <= XOR < 256) /\
  BoF <> EoF /\ BoF <> CE /\ EoF <> CE.

(** Modelled from the spec: the encoder is not among the sources.  "Any
    occurrence of one of these three values inside the payload must be
    replaced by ESCAPE_MARKER followed by (original_byte XOR
    fixed_unescape_mask)."  A sender may escape more byte values than the
    three; [must_escape] tells which it escapes. *)
Definition stuff_byte {byte_consts : Byte} (must_escape : Z -> bool) (x : Z)
  : list Z :=
  if must_escape x then [CE; Z.lxor x XOR] else [x].

Definition stuff {byte_consts : Byte} (must_escape : Z -> bool)
    (data : list Z) : list Z :=
  flat_map (stuff_byte must_escape) data.

End S101.

(* ===================================================================== *)
(** * Part II : libember, the Glow typed views over the DOM               *)
(* ===================================================================== *)

Module Glow.

(** [ber::Tag]: a class and a number; tags compare by both. *)
Record Tag := mkTag { tag_class : Z; tag_number : Z }.

#[global] Instance Tag_eq_dec : EqDecision Tag.
Proof. solve_decision. Defined.

(** [glow::Value] and [ber::Value] with the two conversions the typed
    views use: [Value::toBerValue()] and the constructor
    [Value(ber::Value const&)].  [Value.hpp] and [ber/Value.hpp] are not
    among the sources, so both types and both conversions are an
    interface. *)
Class Values := {
  Value : Type;
  BerValue : Type;
  toBerValue : Value -> BerValue;
  Value_of_ber : BerValue -> Value
}.

(** [GlowTags.hpp] is not among the sources: the tags the typed views
    refer to. *)
Class GlowTags := {
  ElementDefault : Tag;             (* GlowTags::ElementDefault() *)
  Invocation_Arguments : Tag;       (* the arguments slot of an invocation *)
  FunctionContents_Arguments : Tag; (* the arguments slot of a function *)
  FunctionContents_Result : Tag     (* the result slot of a function *)
}.

(** An object is identified by its address. *)
Abbreviation addr := positive.

(** The dynamic type of a container, which [dynamic_cast] inspects.  A
    function node carries its [m_childrenTag] member. *)
Inductive ContainerType :=
| Sequence
| ElementCollection
| TupleItemDescription
| Invocation
| FunctionBase (m_childrenTag : Tag)
| OtherContainer.

#[global] Instance ContainerType_eq_dec : EqDecision ContainerType.
Proof. solve_decision. Defined.

Section Dom.
Context {values : Values}.

(** Modelled from the spec: [dom/Node.hpp], [dom/VariantLeaf.hpp] and
    [dom/Container.hpp] are missing.  "Node: polymorphic over two
    shapes: Leaf owns one Value, tagged with an application Tag;
    Container owns an ordered sequence of child Nodes, may itself carry a
    semantic subtype discriminator."  A container refers to its children
    by address, in insertion order. *)
Inductive Node :=
| VariantLeaf (tag : Tag) (value : BerValue)
| Container (type : ContainerType) (tag : Tag) (children : list addr).

Definition Node_tag (n : Node) : Tag :=
  match n with
  | VariantLeaf tag _ => tag
  | Container _ tag _ => tag
  end.

(** The store of all objects. *)
Abbreviation Heap := (gmap addr Node).

(** Code that reads and writes the store; [None] is undefined behaviour
    (a null or dangling pointer is dereferenced, or a leaf is used as a
    container). *)
Definition M (A : Type) : Type := Heap -> option (A * Heap).

Definition ret {A} (a : A) : M A := fun h => Some (a, h).

Definition bind {A B} (m : M A) (k : A -> M B) : M B :=
  fun h => match m h with
           | Some (a, h') => k a h'
           | None => None
           end.

Definition undefined {A} : M A := fun _ => None.

(** [*p]. *)
Definition deref (p : addr) : M Node :=
  fun h => match h !! p with
           | Some n => Some (n, h)
           | None => None
           end.

(** [*p = n] for a live [p]. *)
Definition store (p : addr) (n : Node) : M unit :=
  fun h => match h !! p with
           | Some _ => Some (tt, <[p := n]> h)
           | None => None
           end.

(** [new T(...)]: an address no object of the store has. *)
Definition new (n : Node) : M addr :=
  fun h => let p := fresh (dom h) in Some (p, <[p := n]> h).

End Dom.

Abbreviation Heap := (gmap addr Node).

Declare Scope dom_scope.
Delimit Scope dom_scope with dom.
Notation "x <- m ;; k" := (bind m (fun x => k))
  (at level 100, m at next level, right associativity) : dom_scope.
Notation "m ;; k" := (bind m (fun _ => k))
  (at level 100, right associativity) : dom_scope.

Section Container.
Context {values : Values}.
Local Open Scope dom_scope.

(** Modelled from the spec: [dom/Container.hpp] is missing.  The range
    [begin(), end()) of a container: its children in insertion order. *)
Definition Container_children (c : addr) : M (list addr) :=
  n <- deref c ;;
  match n with
  | Container _ _ children => ret children
  | VariantLeaf _ _ => undefined
  end.

(** Modelled from the spec: [Container::clear()] removes all children.
    The store keeps no account of deallocation: the objects of the removed
    children stay in it, no longer referred to by the container. *)
Definition Container_clear (c : addr) : M unit :=
  n <- deref c ;;
  match n with
  | Container type tag _ => store c (Container type tag [])
  | VariantLeaf _ _ => undefined
  end.

(** Modelled from the spec: [Container::insert(end(), node)] appends the
    node; "insertion order is preserved". *)
Definition Container_insert_end (c : addr) (node : addr) : M unit :=
  n <- deref c ;;
  match n with
  | Container type tag children =>
      store c (Container type tag (children ++ [node]))
  | VariantLeaf _ _ => undefined
  end.

(** Modelled from the spec: the lookup of a conventional child slot, the
    first child in [first, last) that carries the slot's tag
    ([util::find_tag] is missing). *)
Fixpoint find_tag (range : list addr) (tag : Tag) : M (option addr) :=
  match range with
  | [] => ret None
  | first :: range' =>
      n <- deref first ;;
      if decide (Node_tag n = tag) then ret (Some first)
      else find_tag range' tag
  end.

(** Modelled from the spec: a typed view bound to one child slot.
    "Reading returns None if absent, never creates on read." *)
Definition slot_const (this : addr) (tag : Tag) : M (option addr) :=
  children <- Container_children this ;;
  find_tag children tag.

(** Modelled from the spec: "writing through it lazily creates the backing
    child Container if absent; returns existing otherwise". *)
Definition slot (this : addr) (tag : Tag) (type : ContainerType)
  : M addr :=
  found <- slot_const this tag ;;
  match found with
  | Some child => ret child
  | None =>
      child <- new (Container type tag []) ;;
      Container_insert_end this child ;;
      ret child
  end.

(** Modelled from the spec: [util/TypeFilter.hpp] is missing.
    "collect_typed<U>(dest): iterates a container's immediate children,
    copies into dest only those children whose runtime subtype matches U,
    silently skipping non-matching children, and returns the count
    copied."  The destination receives the addresses of the matches. *)
Fixpoint TypeFilter_collect (U : ContainerType) (range : list addr)
    (dest : list addr) (size : nat) : M (list addr * nat) :=
  match range with
  | [] => ret (dest, size)
  | first :: range' =>
      n <- deref first ;;
      match n with
      | Container type _ _ =>
          if decide (type = U)
          then TypeFilter_collect U range' (dest ++ [first]) (S size)
          else TypeFilter_collect U range' dest size
      | VariantLeaf _ _ => TypeFilter_collect U range' dest size
      end
  end.

(** What a container owns: its children and all that is below them. *)
Inductive descendant (h : Heap) : addr -> addr -> Prop :=
| descendant_child c type tag children x :
    h !! c = Some (Container type tag children) ->
    x ∈ children ->
    descendant h c x
| descendant_below c type tag children y x :
    h !! c = Some (Container type tag children) ->
    y ∈ children ->
    descendant h y x ->
    descendant h c x.

End Container.

(** ** [GlowInvocation] *)

Module GlowInvocation.
Section GlowInvocation.
Context {values : Values} {tags : GlowTags}.
Local Open Scope dom_scope.

(** Modelled from the spec: [impl/GlowInvocation.ipp] is missing.
    [arguments() const]: "returns the collection of arguments; if no
    arguments are set, this method returns null". *)
Definition arguments_const (this : addr) : M (option addr) :=
  slot_const this Invocation_Arguments.

(** Modelled from the spec: [impl/GlowInvocation.ipp] is missing.
    [arguments()]: "returns a modifiable collection of arguments; if no
    arguments are set yet, the container will be created". *)
Definition arguments (this : addr) : M addr :=
  slot this Invocation_Arguments Sequence.

(** The loop of [setTypedArguments] over [firstValue, lastValue). *)
Fixpoint setTypedArguments_loop (container : addr) (range : list Value)
  : M unit :=
  match range with
  | [] => ret tt
  | firstValue :: range' =>
      let berValue := toBerValue firstValue in
      node <- new (VariantLeaf ElementDefault berValue) ;;
      Container_insert_end container node ;;
      setTypedArguments_loop container range'
  end.

(** [setTypedArguments(firstValue, lastValue)]. *)
Definition setTypedArguments (this : addr) (range : list Value) : M unit :=
  container <- arguments this ;;
  Container_clear container ;;
  setTypedArguments_loop container range.

(** The loop of [typedArguments] over [first, last): the output iterator
    [dest] is the sequence written so far. *)
Fixpoint typedArguments_loop (range : list addr)
    (dest : list Value) (size : nat) : M (list Value * nat) :=
  match range with
  | [] => ret (dest, size)
  | first :: range' =>
      n <- deref first ;;
      match n with
      | VariantLeaf _ value =>
          typedArguments_loop range' (dest ++ [Value_of_ber value]) (S size)
      | Container _ _ _ =>
          typedArguments_loop range' dest size
      end
  end.

(** [typedArguments(dest)]. *)
Definition typedArguments (this : addr) (dest : list Value)
  : M (list Value * nat) :=
  container <- arguments_const this ;;
  match container with
  | Some container =>
      range <- Container_children container ;;
      typedArguments_loop range dest 0
  | None => ret (dest, 0%nat)
  end.

(** The words of the specification for [typedArguments]: the children of
    the arguments container that are leaves, converted, in child order. *)
Definition leaf_values (h : Heap) (children : list addr) : list Value :=
  omap (fun child =>
          match h !! child with
          | Some (VariantLeaf _ value) => Some (Value_of_ber value)
          | _ => None
          end) children.

End GlowInvocation.
End GlowInvocation.

(** ** [GlowFunctionBase] *)

Module GlowFunctionBase.
Section GlowFunctionBase.
Context {values : Values} {tags : GlowTags}.
Local Open Scope dom_scope.

(** The member [m_childrenTag] of the function node [this]. *)
Definition m_childrenTag_of (this : addr) : M Tag :=
  n <- deref this ;;
  match n with
  | Container (FunctionBase childrenTag) _ _ => ret childrenTag
  | _ => undefined
  end.

(** Modelled from the spec: [impl/GlowFunctionBase.ipp] is missing.
    [arguments() const]: "if no arguments are set, this method returns
    null". *)
Definition arguments_const (this : addr) : M (option addr) :=
  slot_const this FunctionContents_Arguments.

(** Modelled from the spec: [impl/GlowFunctionBase.ipp] is missing.
    [result() const]. *)
Definition result_const (this : addr) : M (option addr) :=
  slot_const this FunctionContents_Result.

(** Modelled from the spec: [impl/GlowFunctionBase.ipp] is missing.
    [children() const]: "if no children are attached, this method returns
    null". *)
Definition children_const (this : addr) : M (option addr) :=
  childrenTag <- m_childrenTag_of this ;;
  slot_const this childrenTag.

(** Modelled from the spec: [impl/GlowFunctionBase.ipp] is missing.
    [arguments()]: "if the sequence does not yet exist, it will be
    created". *)
Definition arguments (this : addr) : M addr :=
  slot this FunctionContents_Arguments Sequence.

(** Modelled from the spec: [impl/GlowFunctionBase.ipp] is missing.
    [result()]. *)
Definition result (this : addr) : M addr :=
  slot this FunctionContents_Result Sequence.

(** Modelled from the spec: [impl/GlowFunctionBase.ipp] is missing.
    [children()]: "the element will be inserted if it doesn't already
    exist". *)
Definition children (this : addr) : M addr :=
  childrenTag <- m_childrenTag_of this ;;
  slot this childrenTag ElementCollection.

(** [typedArguments(dest)]. *)
Definition typedArguments (this : addr) (dest : list addr)
  : M (list addr * nat) :=
  container <- arguments_const this ;;
  match container with
  | Some container =>
      range <- Container_children container ;;
      TypeFilter_collect TupleItemDescription range dest 0
  | None => ret (dest, 0%nat)
  end.

(** [typedResult(dest)]. *)
Definition typedResult (this : addr) (dest : list addr)
  : M (list addr * nat) :=
  container <- result_const this ;;
  match container with
  | Some container =>
      range <- Container_children container ;;
      TypeFilter_collect TupleItemDescription range dest 0
  | None => ret (dest, 0%nat)
  end.

(** The words of the header for [typedArguments] and [typedResult]: "all
    arguments that are of type GlowTupleItemDescription", the children
    whose dynamic type is [U], in child order. *)
Definition children_of_type (U : ContainerType) (h : Heap)
    (children : list addr) : list addr :=
  List.filter
    (fun child =>
       match h !! child with
       | Some (Container type _ _) => bool_decide (type = U)
       | _ => false
       end) children.

End GlowFunctionBase.
End GlowFunctionBase.

(** Modelled from the spec: [Value.hpp] and [ber/Value.hpp] are missing.
    For runs on concrete trees: integer values, carried by a leaf
    unchanged. *)
Definition integer_values : Values :=
  {| Value := Z; BerValue := Z;
     toBerValue := fun v => v; Value_of_ber := fun b => b |}.

(** Modelled from the spec: [GlowTags.hpp] is missing.  For runs on
    concrete trees: four distinct context-specific tags. *)
Definition sample_tags : GlowTags :=
  {| ElementDefault := mkTag 2 0;
     Invocation_Arguments := mkTag 2 1;
     FunctionContents_Arguments := mkTag 2 2;
     FunctionContents_Result := mkTag 2 3 |}.

(** A tree to run the code on: an invocation (at address 1) whose arguments
    container (2) holds an integer leaf (3), a nested sequence (4) that has
    a leaf of its own (5), and a second integer leaf (6). *)
Definition sample_invocation : gmap addr (Node (values := integer_values)) :=
  <[6%positive := VariantLeaf (values := integer_values) (mkTag 2 0) 8%Z]>
  (<[5%positive := VariantLeaf (values := integer_values) (mkTag 2 0) 9%Z]>
  (<[4%positive := Container (values := integer_values) Sequence (mkTag 2 0) [5%positive]]>
  (<[3%positive := VariantLeaf (values := integer_values) (mkTag 2 0) 7%Z]>
  (<[2%positive := Container (values := integer_values) Sequence (mkTag 2 1)
                     [3%positive; 4%positive; 6%positive]]>
  (<[1%positive := Container (values := integer_values) Invocation (mkTag 1 22) [2%positive]]> ∅))))).

(** An invocation without arguments. *)
Definition bare_invocation : gmap addr (Node (values := integer_values)) :=
  <[1%positive := Container (values := integer_values) Invocation (mkTag 1 22) []]> ∅.

(** A function node with neither arguments nor result nor children; its
    [m_childrenTag] is the context-specific tag 4. *)
Definition bare_function : gmap addr (Node (values := integer_values)) :=
  <[1%positive := Container (values := integer_values) (FunctionBase (mkTag 2 4)) (mkTag 1 19) []]> ∅.

(** A function node (1) with an arguments sequence (2) that holds a tuple
    item (4), a leaf (5) and a second tuple item (6), and a result sequence
    (3) that holds one tuple item (7). *)
Definition sample_function : gmap addr (Node (values := integer_values)) :=
  <[7%positive := Container (values := integer_values)
                    TupleItemDescription (mkTag 2 0) []]>
  (<[6%positive := Container (values := integer_values)
                     TupleItemDescription (mkTag 2 0) []]>
  (<[5%positive := VariantLeaf (values := integer_values) (mkTag 2 0) 1%Z]>
  (<[4%positive := Container (values := integer_values)
                     TupleItemDescription (mkTag 2 0) []]>
  (<[3%positive := Container (values := integer_values)
                     Sequence (mkTag 2 3) [7%positive]]>
  (<[2%positive := Container (values := integer_values)
                     Sequence (mkTag 2 2)
                     [4%positive; 5%positive; 6%positive]]>
  (<[1%positive := Container (values := integer_values)
                     (FunctionBase (mkTag 2 4)) (mkTag 1 19)
                     [2%positive; 3%positive]]> ∅)))))).

(** An invocation (1) with an identifier leaf (2) beside its arguments
    container (3), which holds one leaf (4). *)
Definition invocation_with_id : gmap addr (Node (values := integer_values)) :=
  <[4%positive := VariantLeaf (values := integer_values) (mkTag 2 0) 7%Z]>
  (<[3%positive := Container (values := integer_values)
                     Sequence (mkTag 2 1) [4%positive]]>
  (<[2%positive := VariantLeaf (values := integer_values) (mkTag 2 9) 42%Z]>
  (<[1%positive := Container (values := integer_values)
                     Invocation (mkTag 1 22) [2%positive; 3%positive]]> ∅))).

End Glow.

(* ===================================================================== *)
(** * Part III : properties of the stream decoder                         *)
(* ===================================================================== *)

Module S101_Properties.
Import S101.
Local Open Scope Z_scope.

(** ** Bytes *)

Lemma static_cast_range (x : Z) : 0 <= static_cast x < 256.
Proof. unfold static_cast. apply Z.mod_pos_bound. lia. Qed.

Lemma static_cast_byte (b : Z) : 0 <= b < 256 -> static_cast b = b.
Proof. intros Hb. unfold static_cast. apply Z.mod_small. exact Hb. Qed.

Lemma byte_high_bits (a n : Z) : 0 <= a < 256 -> 8 <= n -> Z.testbit a n = false.
Proof.
  intros Ha Hn.
  rewrite <- (Z.mod_small a (2 ^ 8)) by (change (2 ^ 8) with 256; lia).
  apply Z.mod_pow2_bits_high. lia.
Qed.

Lemma lxor_byte (a b : Z) :
  0 <= a < 256 -> 0 <= b < 256 -> 0 <= Z.lxor a b < 256.
Proof.
  intros Ha Hb.
  assert (Hmod : Z.lxor a b mod 2 ^ 8 = Z.lxor a b).
  { apply Z.bits_inj'. intros n Hn.
    destruct (Z_lt_ge_dec n 8) as [Hlt | Hge].
    - apply Z.mod_pow2_bits_low. lia.
    - rewrite Z.mod_pow2_bits_high by lia.
      rewrite Z.lxor_spec, !byte_high_bits by lia. reflexivity. }
  rewrite <- Hmod. change (2 ^ 8) with 256. apply Z.mod_pos_bound. lia.
Qed.

(** ** [reset] and the constructor *)

Lemma reset_new (d : StreamDecoder) : reset d = StreamDecoder_new.
Proof. reflexivity. Qed.

Section Steps.
Context {byte_consts : Byte} {crc16 : Crc16}.

(** ** One step, branch by branch *)

Lemma readByte_state_escaped {W S : Type} (input : Z)
    (callback : list Z -> S -> W -> W) (state : S)
    (d : StreamDecoder) (w : W) :
  m_escape d = true ->
  readByte_state input callback state d w =
    ({| m_bytes := m_bytes d ++ [static_cast (Z.lxor (static_cast input) XOR)];
        m_escape := false;
        m_crc := Crc16_add (m_crc d) (Z.lxor (static_cast input) XOR) |}, w).
Proof. intros He. unfold readByte_state. rewrite He. reflexivity. Qed.

Lemma readByte_state_BoF {W S : Type} (input : Z)
    (callback : list Z -> S -> W -> W) (state : S)
    (d : StreamDecoder) (w : W) :
  m_escape d = false -> static_cast input = BoF ->
  readByte_state input callback state d w = (StreamDecoder_new, w).
Proof.
  intros He Hb. unfold readByte_state. rewrite He, Hb, Z.eqb_refl.
  reflexivity.
Qed.

Lemma readByte_state_EoF {W S : Type} (input : Z)
    (callback : list Z -> S -> W -> W) (state : S)
    (d : StreamDecoder) (w : W) :
  m_escape d = false -> static_cast input = EoF -> EoF <> BoF ->
  readByte_state input callback state d w =
    (StreamDecoder_new,
     if (m_crc d =? 0xF0B8) && (1 <? length (m_bytes d))%nat
     then callback (payload d) state w else w).
Proof.
  intros He Hb Hne. unfold readByte_state. rewrite He, Hb.
  destruct (Z.eqb_spec EoF BoF) as [Heq | _]; [contradiction |].
  rewrite Z.eqb_refl. reflexivity.
Qed.

(** The guard of the end-of-frame branch, as a proposition. *)
Lemma EoF_guard_spec (d : StreamDecoder) :
  (m_crc d =? 0xF0B8) && (1 <? length (m_bytes d))%nat = true <->
  m_crc d = 0xF0B8 /\ (2 <= length (m_bytes d))%nat.
Proof.
  rewrite andb_true_iff, Z.eqb_eq, Nat.ltb_lt. lia.
Qed.

Lemma record_payload_grows (p : list Z) (log : list (list Z)) :
  record_payload p log <> log.
Proof.
  unfold record_payload. intros Heq.
  apply (f_equal (@length (list Z))) in Heq.
  rewrite length_app in Heq. simpl in Heq. lia.
Qed.

(** ** [read] *)

Lemma read_app {W : Type} (pre post : list Z) (callback : list Z -> W -> W)
    (d : StreamDecoder) (w : W) :
  read (pre ++ post) callback d w =
    read post callback (fst (read pre callback d w))
                       (snd (read pre callback d w)).
Proof.
  revert d w. induction pre as [| b pre IH]; intros d w; simpl.
  - reflexivity.
  - destruct (readByte b callback d w) as [d1 w1]. apply IH.
Qed.

Lemma read_state_app {W S : Type} (pre post : list Z)
    (callback : list Z -> S -> W -> W) (state : S)
    (d : StreamDecoder) (w : W) :
  read_state (pre ++ post) callback state d w =
    read_state post callback state
      (fst (read_state pre callback state d w))
      (snd (read_state pre callback state d w)).
Proof.
  revert d w. induction pre as [| b pre IH]; intros d w; simpl.
  - reflexivity.
  - destruct (readByte_state b callback state d w) as [d1 w1]. apply IH.
Qed.

Lemma read_fold {W : Type} (range : list Z) (callback : list Z -> W -> W)
    (d : StreamDecoder) (w : W) :
  read range callback d w = read_bytewise range callback d w.
Proof.
  unfold read_bytewise. revert d w.
  induction range as [| b range IH]; intros d w; simpl.
  - reflexivity.
  - destruct (readByte b callback d w) as [d1 w1]. simpl. apply IH.
Qed.

End Steps.

(** ** End of frame *)

(** C1, as the code has it.  For every decoder state that is not
    escape-pending, feeding the end marker invokes the callback if and only
    if the running CRC equals 0xF0B8 and the buffer holds more than one
    byte (at least the two checksum bytes); the callback then receives
    exactly the buffered bytes without the trailing two; otherwise nothing
    is invoked, and nothing else happens: the step has no error result.
    In either case the decoder is the freshly constructed one afterwards. *)
Theorem readByte_EoF_delivers_checked_frame
    {byte_consts : Byte} {crc16 : Crc16} {W S : Type} (input : Z)
    (callback : list Z -> S -> W -> W) (state : S)
    (d : StreamDecoder) (w : W) (log : list (list Z)) :
  m_escape d = false ->
  static_cast input = EoF ->
  EoF <> BoF ->
  (m_crc d = 0xF0B8 /\ (1 < length (m_bytes d))%nat ->
     snd (readByte_state input callback state d w) =
       callback (firstn (length (m_bytes d) - 2) (m_bytes d)) state w) /\
  (~ (m_crc d = 0xF0B8 /\ (1 < length (m_bytes d))%nat) ->
     snd (readByte_state input callback state d w) = w) /\
  (snd (readByte input record_payload d log) <> log <->
     m_crc d = 0xF0B8 /\ (1 < length (m_bytes d))%nat) /\
  (m_crc d = 0xF0B8 /\ (1 < length (m_bytes d))%nat ->
     snd (readByte input record_payload d log) =
       log ++ [firstn (length (m_bytes d) - 2) (m_bytes d)]) /\
  fst (readByte_state input callback state d w) = StreamDecoder_new /\
  fst (readByte input record_payload d log) = StreamDecoder_new.
Proof.
  intros He Hb Hne.
  unfold readByte.
  rewrite !(readByte_state_EoF input) by assumption. simpl.
  pose proof (EoF_guard_spec d) as Hguard.
  destruct ((m_crc d =? 0xF0B8) && (1 <? length (m_bytes d))%nat) eqn:Hg.
  - assert (Hv : m_crc d = 0xF0B8 /\ (1 < length (m_bytes d))%nat).
    { destruct Hguard as [Hguard _]. specialize (Hguard eq_refl). lia. }
    repeat split; try reflexivity; try tauto.
    intros _. unfold invokeStatelessCallback. apply record_payload_grows.
  - assert (Hv : ~ (m_crc d = 0xF0B8 /\ (1 < length (m_bytes d))%nat)).
    { intros [Hc Hl]. destruct Hguard as [_ Hguard].
      assert (true = false) by (rewrite <- Hguard by (split; [exact Hc | lia]);
                                reflexivity).
      discriminate. }
    repeat split; try reflexivity; try tauto.
Qed.

(** C1 as the specification words it ("more than 2 bytes") fails: with
    exactly the two checksum bytes of an empty payload buffered, the
    callback is invoked (with the empty payload), although the buffer does
    not hold more than 2 bytes.  The state is the one the stream
    [BoF 00 00] leaves behind. *)
Lemma readByte_EoF_two_bytes_counterexample :
  read (byte_consts := s101_bytes) (crc16 := x25_crc)
       [0xFE; 0x00; 0x00] record_payload StreamDecoder_new []
    = (complete_empty, []) /\
  m_escape complete_empty = false /\
  ~ (snd (readByte (byte_consts := s101_bytes) (crc16 := x25_crc)
                   0xFF record_payload complete_empty []) <> []
     <-> (2 < length (m_bytes complete_empty))%nat /\
         m_crc complete_empty = 0xF0B8).
Proof.
  split; [vm_compute; reflexivity |].
  split; [reflexivity |].
  intros [Hinvoked _].
  assert (Hlen : (2 < 2)%nat).
  { apply Hinvoked. vm_compute. discriminate. }
  lia.
Qed.

Lemma readByte_EoF_delivers_checked_frame_witness :
  (m_escape complete_01_02 = false /\
   static_cast 0xFF = EoF (Byte := s101_bytes) /\
   EoF (Byte := s101_bytes) <> BoF (Byte := s101_bytes)) /\
  snd (readByte (byte_consts := s101_bytes) (crc16 := x25_crc)
                0xFF record_payload complete_01_02 []) = [] ++ [[0x01; 0x02]].
Proof.
  assert (H1 : m_escape complete_01_02 = false) by reflexivity.
  assert (H2 : static_cast 0xFF = EoF (Byte := s101_bytes)) by reflexivity.
  assert (H3 : EoF (Byte := s101_bytes) <> BoF (Byte := s101_bytes))
    by (vm_compute; discriminate).
  split; [exact (conj H1 (conj H2 H3)) |].
  apply (readByte_EoF_delivers_checked_frame
           (byte_consts := s101_bytes) (crc16 := x25_crc)
           0xFF record_payload_state tt complete_01_02 [] [] H1 H2 H3).
  split; [reflexivity | simpl; lia].
Defined.

(** ** The escape-pending state *)

(** C4.  For every decoder state whose escape flag is set and every input
    byte [b], [readByte] clears the flag, appends [b XOR Byte::XOR] to the
    buffer and folds that same unescaped byte, not the raw one, into the
    running CRC. *)
Theorem readByte_escaped_unescapes
    {byte_consts : Byte} {crc16 : Crc16} {W S : Type} (b : Z)
    (callback : list Z -> S -> W -> W) (state : S)
    (d : StreamDecoder) (w : W) :
  m_escape d = true ->
  0 <= b < 256 ->
  0 <= XOR < 256 ->
  m_escape (fst (readByte_state b callback state d w)) = false /\
  m_bytes (fst (readByte_state b callback state d w)) =
    m_bytes d ++ [Z.lxor b XOR] /\
  m_crc (fst (readByte_state b callback state d w)) =
    Crc16_add (m_crc d) (Z.lxor b XOR).
Proof.
  intros He Hb Hx.
  rewrite readByte_state_escaped by exact He. simpl.
  rewrite (static_cast_byte b) by exact Hb.
  rewrite static_cast_byte by (apply lxor_byte; assumption).
  repeat split.
Qed.

Lemma readByte_escaped_unescapes_witness :
  (m_escape pending_after_01 = true /\ 0 <= 0xDE < 256 /\
   0 <= XOR (Byte := s101_bytes) < 256) /\
  m_bytes (fst (readByte_state (byte_consts := s101_bytes)
                  (crc16 := x25_crc) 0xDE record_payload_state tt
                  pending_after_01 [])) =
    m_bytes pending_after_01 ++ [Z.lxor 0xDE (XOR (Byte := s101_bytes))].
Proof.
  assert (H1 : m_escape pending_after_01 = true) by reflexivity.
  assert (H2 : 0 <= 0xDE < 256) by lia.
  assert (H3 : 0 <= XOR (Byte := s101_bytes) < 256) by (simpl; lia).
  split; [exact (conj H1 (conj H2 H3)) |].
  apply (readByte_escaped_unescapes
           (byte_consts := s101_bytes) (crc16 := x25_crc)
           0xDE record_payload_state tt pending_after_01 [] H1 H2 H3).
Defined.

(** C9.  While the decoder is escape-pending, the next byte is never taken
    for a marker, whatever its value: the callback is not invoked, the
    buffer is not emptied but grows by exactly the unescaped byte, the CRC
    is continued, and the escape flag is cleared rather than set again. *)
Theorem readByte_escaped_never_a_marker
    {byte_consts : Byte} {crc16 : Crc16} {W S : Type} (input : Z)
    (callback : list Z -> S -> W -> W) (state : S)
    (d : StreamDecoder) (w : W) (log : list (list Z)) :
  m_escape d = true ->
  snd (readByte_state input callback state d w) = w /\
  snd (readByte input record_payload d log) = log /\
  m_escape (fst (readByte_state input callback state d w)) = false /\
  m_bytes (fst (readByte_state input callback state d w)) =
    m_bytes d ++ [static_cast (Z.lxor (static_cast input) XOR)] /\
  m_crc (fst (readByte_state input callback state d w)) =
    Crc16_add (m_crc d) (Z.lxor (static_cast input) XOR) /\
  fst (readByte input record_payload d log) =
    fst (readByte_state input callback state d w).
Proof.
  intros He. unfold readByte.
  rewrite !readByte_state_escaped by exact He. simpl.
  repeat split.
Qed.

Lemma readByte_escaped_never_a_marker_witness :
  m_escape pending_after_01 = true /\
  snd (readByte (byte_consts := s101_bytes) (crc16 := x25_crc)
                0xFF record_payload pending_after_01 [[0x07]]) = [[0x07]] /\
  snd (readByte (byte_consts := s101_bytes) (crc16 := x25_crc)
                0xFE record_payload pending_after_01 [[0x07]]) = [[0x07]] /\
  snd (readByte (byte_consts := s101_bytes) (crc16 := x25_crc)
                0xFD record_payload pending_after_01 [[0x07]]) = [[0x07]].
Proof.
  assert (H1 : m_escape pending_after_01 = true) by reflexivity.
  split; [exact H1 |].
  split; [| split].
  - apply (readByte_escaped_never_a_marker
             (byte_consts := s101_bytes) (crc16 := x25_crc)
             0xFF record_payload_state tt pending_after_01 [] [[0x07]] H1).
  - apply (readByte_escaped_never_a_marker
             (byte_consts := s101_bytes) (crc16 := x25_crc)
             0xFE record_payload_state tt pending_after_01 [] [[0x07]] H1).
  - apply (readByte_escaped_never_a_marker
             (byte_consts := s101_bytes) (crc16 := x25_crc)
             0xFD record_payload_state tt pending_after_01 [] [[0x07]] H1).
Defined.

(** ** Start of frame and the reset state *)

(** C5.  For every decoder state that is not escape-pending, feeding the
    start marker drops the partial frame and leaves the reset state (empty
    buffer, escape flag cleared, CRC at its initial value) without invoking
    the callback; feeding the start marker once more changes nothing. *)
Theorem readByte_BoF_resets
    {byte_consts : Byte} {crc16 : Crc16} {W S : Type} (input : Z)
    (callback : list Z -> S -> W -> W) (state : S)
    (d : StreamDecoder) (w : W) (log : list (list Z)) :
  m_escape d = false ->
  static_cast input = BoF ->
  m_bytes (fst (readByte_state input callback state d w)) = [] /\
  m_escape (fst (readByte_state input callback state d w)) = false /\
  m_crc (fst (readByte_state input callback state d w)) = 0xFFFF /\
  snd (readByte_state input callback state d w) = w /\
  snd (readByte input record_payload d log) = log /\
  readByte_state input callback state
      (fst (readByte_state input callback state d w))
      (snd (readByte_state input callback state d w)) =
    readByte_state input callback state d w.
Proof.
  intros He Hb.
  unfold readByte.
  rewrite !(readByte_state_BoF input _ _ d) by assumption. simpl.
  rewrite readByte_state_BoF by (reflexivity || assumption).
  repeat split.
Qed.

Lemma readByte_BoF_resets_witness :
  (m_escape partial_01_02 = false /\
   static_cast 0xFE = BoF (Byte := s101_bytes)) /\
  m_bytes (fst (readByte_state (byte_consts := s101_bytes)
                  (crc16 := x25_crc) 0xFE record_payload_state tt
                  partial_01_02 [])) = [].
Proof.
  assert (H1 : m_escape partial_01_02 = false) by reflexivity.
  assert (H2 : static_cast 0xFE = BoF (Byte := s101_bytes)) by reflexivity.
  split; [exact (conj H1 H2) |].
  apply (readByte_BoF_resets
           (byte_consts := s101_bytes) (crc16 := x25_crc)
           0xFE record_payload_state tt partial_01_02 [] [] H1 H2).
Defined.



(** ** Runs of bytes *)

(** C8.  [read] over a range is [readByte] on each byte in iteration order,
    one at a time: the decoder and the world the callback acts on, as byte
    N leaves them, are what byte N+1 starts from; the same holds for the
    overload that threads a caller state; an empty range changes nothing. *)
Theorem read_is_readByte_in_order
    {byte_consts : Byte} {crc16 : Crc16} {W S : Type}
    (range pre post : list Z) (b : Z)
    (callback : list Z -> W -> W)
    (callback_state : list Z -> S -> W -> W) (state : S)
    (d : StreamDecoder) (w : W) :
  read range callback d w = read_bytewise range callback d w /\
  read [] callback d w = (d, w) /\
  read_state [] callback_state state d w = (d, w) /\
  read (pre ++ b :: post) callback d w =
    (let dw := read pre callback d w in
     let dw := readByte b callback (fst dw) (snd dw) in
     read post callback (fst dw) (snd dw)) /\
  read_state (pre ++ b :: post) callback_state state d w =
    (let dw := read_state pre callback_state state d w in
     let dw := readByte_state b callback_state state (fst dw) (snd dw) in
     read_state post callback_state state (fst dw) (snd dw)) /\
  read range callback d w =
    read_state range invokeStatelessCallback callback d w.
Proof.
  split; [apply read_fold |].
  split; [reflexivity |].
  split; [reflexivity |].
  split; [| split].
  - rewrite read_app. cbv zeta. simpl.
    destruct (readByte b callback _ _) as [d1 w1]. reflexivity.
  - rewrite read_state_app. cbv zeta. simpl.
    destruct (readByte_state b callback_state state _ _) as [d1 w1].
    reflexivity.
  - revert d w. induction range as [| x range IH]; intros d w; simpl.
    + reflexivity.
    + unfold readByte at 1.
      destruct (readByte_state x invokeStatelessCallback callback d w)
        as [d1 w1].
      apply IH.
Qed.

(** The sample states are the ones their streams lead to. *)
Example sample_states_reached :
  read (byte_consts := s101_bytes) (crc16 := x25_crc)
       [0xFE; 0x01; 0xFD] record_payload StreamDecoder_new []
    = (pending_after_01, []) /\
  read (byte_consts := s101_bytes) (crc16 := x25_crc)
       [0xFE; 0x01; 0x02] record_payload StreamDecoder_new []
    = (partial_01_02, []) /\
  read (byte_consts := s101_bytes) (crc16 := x25_crc)
       [0xFE; 0x09] record_payload StreamDecoder_new []
    = (partial_09, []) /\
  read (byte_consts := s101_bytes) (crc16 := x25_crc)
       [0xFE; 0x01; 0x02; 0x8D; 0x35] record_payload StreamDecoder_new []
    = (complete_01_02, []).
Proof. vm_compute. repeat split. Qed.

(** The frame of the payload [01 FE 02]: the start marker in the payload
    travels as the escape byte followed by [FE XOR 20]; fed byte by byte,
    the decoder hands the payload to the callback exactly once. *)
Example read_frame_round_trip :
  read (byte_consts := s101_bytes) (crc16 := x25_crc)
       [0xFE; 0x01; 0xFD; 0xDE; 0x02; 0x1A; 0x59; 0xFF]
       record_payload StreamDecoder_new [] =
    (StreamDecoder_new, [[0x01; 0xFE; 0x02]]).
Proof. vm_compute. reflexivity. Qed.

End S101_Properties.

(* ===================================================================== *)
(** * Part IV : properties of the Glow typed views                        *)
(* ===================================================================== *)

Module Glow_Properties.
Import Glow.
Local Open Scope dom_scope.

Section Store.
Context {values : Values}.
Implicit Types (h : Heap) (p c this : addr) (n : Node) (tag : Tag).

(** ** The primitives on a live object *)

Lemma deref_live h p n : h !! p = Some n -> deref p h = Some (n, h).
Proof. intros Hp. unfold deref. rewrite Hp. reflexivity. Qed.

Lemma Container_children_live h c type tag children :
  h !! c = Some (Container type tag children) ->
  Container_children c h = Some (children, h).
Proof.
  intros Hc. unfold Container_children, bind. rewrite (deref_live _ _ _ Hc).
  reflexivity.
Qed.

Lemma Container_clear_live h c type tag children :
  h !! c = Some (Container type tag children) ->
  Container_clear c h = Some (tt, <[c := Container type tag []]> h).
Proof.
  intros Hc. unfold Container_clear, bind. rewrite (deref_live _ _ _ Hc).
  unfold store. rewrite Hc. reflexivity.
Qed.

Lemma Container_insert_end_live h c type tag children node :
  h !! c = Some (Container type tag children) ->
  Container_insert_end c node h =
    Some (tt, <[c := Container type tag (children ++ [node])]> h).
Proof.
  intros Hc. unfold Container_insert_end, bind.
  rewrite (deref_live _ _ _ Hc). unfold store. rewrite Hc. reflexivity.
Qed.

Lemma fresh_not_live h : h !! fresh (dom h) = None.
Proof. apply not_elem_of_dom. apply is_fresh. Qed.

Lemma live_not_fresh h p n : h !! p = Some n -> p <> fresh (dom h).
Proof. intros Hp ->. rewrite fresh_not_live in Hp. discriminate. Qed.

(** ** [find_tag] reads the tags of the children it passes, no more *)

Lemma find_tag_frame range tag h found h' :
  find_tag range tag h = Some (found, h') -> h' = h.
Proof.
  induction range as [| k range IH]; simpl.
  - unfold ret. intros [= _ <-]. reflexivity.
  - unfold bind, deref. destruct (h !! k) as [n |]; [| discriminate].
    destruct (decide (Node_tag n = tag)).
    + unfold ret. intros [= _ <-]. reflexivity.
    + exact IH.
Qed.

Lemma find_tag_transfer range tag h h' found :
  find_tag range tag h = Some (found, h) ->
  (forall k n, k ∈ range -> h !! k = Some n ->
               Node_tag <$> h' !! k = Some (Node_tag n)) ->
  find_tag range tag h' = Some (found, h').
Proof.
  induction range as [| k range IH]; simpl; intros Hfind Htags.
  - revert Hfind. unfold ret. intros [= <-]. reflexivity.
  - revert Hfind. unfold bind, deref.
    destruct (h !! k) as [n |] eqn:Hk; [| discriminate].
    pose proof (Htags k n ltac:(left) Hk) as Hkn.
    destruct (h' !! k) as [n' |]; [| discriminate].
    simpl in Hkn. injection Hkn as Htag. rewrite Htag.
    destruct (decide (Node_tag n = tag)).
    + unfold ret. intros [= <-]. reflexivity.
    + intros Hfind. apply IH; [exact Hfind |].
      intros k' m Hin. apply Htags. right. exact Hin.
Qed.

Lemma find_tag_absent_app pre post tag h :
  find_tag pre tag h = Some (None, h) ->
  find_tag (pre ++ post) tag h = find_tag post tag h.
Proof.
  induction pre as [| k pre IH]; simpl.
  - reflexivity.
  - unfold bind, deref. destruct (h !! k) as [n |]; [| discriminate].
    destruct (decide (Node_tag n = tag)).
    + unfold ret. discriminate.
    + exact IH.
Qed.

Lemma find_tag_head k range tag h n :
  h !! k = Some n -> Node_tag n = tag ->
  find_tag (k :: range) tag h = Some (Some k, h).
Proof.
  intros Hk Htag. simpl. unfold bind. rewrite (deref_live _ _ _ Hk).
  rewrite decide_True by exact Htag. reflexivity.
Qed.

Lemma find_tag_found range tag h child :
  find_tag range tag h = Some (Some child, h) ->
  child ∈ range /\ exists n, h !! child = Some n /\ Node_tag n = tag.
Proof.
  induction range as [| k range IH]; simpl.
  - unfold ret. discriminate.
  - unfold bind, deref. destruct (h !! k) as [n |] eqn:Hk; [| discriminate].
    destruct (decide (Node_tag n = tag)) as [Htag | Htag].
    + unfold ret. intros [= <-]. split; [left | eauto].
    + intros Hrest. destruct (IH Hrest) as [Hin Hn].
      split; [right; exact Hin | exact Hn].
Qed.

(** ** A slot: looked up, or created once *)

Lemma slot_const_live h this type tag children slot_tag :
  h !! this = Some (Container type tag children) ->
  slot_const this slot_tag h = find_tag children slot_tag h.
Proof.
  intros Hthis. unfold slot_const, bind.
  rewrite (Container_children_live _ _ _ _ _ Hthis). reflexivity.
Qed.

Lemma slot_const_frame h this slot_tag found h' :
  slot_const this slot_tag h = Some (found, h') -> h' = h.
Proof.
  unfold slot_const, bind, Container_children, bind, deref.
  destruct (h !! this) as [[? ? | ? ? children] |]; try discriminate.
  simpl. apply find_tag_frame.
Qed.

Lemma slot_const_inv h this slot_tag found :
  slot_const this slot_tag h = Some (found, h) ->
  exists type tag children,
    h !! this = Some (Container type tag children) /\
    find_tag children slot_tag h = Some (found, h).
Proof.
  unfold slot_const, bind, Container_children, bind, deref.
  destruct (h !! this) as [[? ? | type tag children] |]; try discriminate.
  simpl. intros Hfind. exists type, tag, children. split; [reflexivity | exact Hfind].
Qed.

Lemma slot_const_transfer h h' this slot_tag found :
  slot_const this slot_tag h = Some (found, h) ->
  (forall type tag children,
     h !! this = Some (Container type tag children) ->
     h' !! this = Some (Container type tag children)) ->
  (forall type tag children k n,
     h !! this = Some (Container type tag children) -> k ∈ children ->
     h !! k = Some n -> Node_tag <$> h' !! k = Some (Node_tag n)) ->
  slot_const this slot_tag h' = Some (found, h').
Proof.
  intros Hslot Hthis Htags.
  destruct (slot_const_inv _ _ _ _ Hslot) as (type & tag & children & Ht & Hfind).
  rewrite (slot_const_live _ _ _ _ _ _ (Hthis _ _ _ Ht)).
  apply (find_tag_transfer _ _ h); [exact Hfind |].
  intros k n Hin Hk. exact (Htags _ _ _ _ _ Ht Hin Hk).
Qed.

Lemma slot_existing h this slot_tag type child :
  slot_const this slot_tag h = Some (Some child, h) ->
  slot this slot_tag type h = Some (child, h).
Proof. intros Hc. unfold slot, bind. rewrite Hc. reflexivity. Qed.

(** The store after the slot was created: the new container sits at a fresh
    address and is the last child of [this]. *)
Lemma slot_created h this slot_tag type ty tag children :
  h !! this = Some (Container ty tag children) ->
  find_tag children slot_tag h = Some (None, h) ->
  let child := fresh (dom h) in
  let h' := <[this := Container ty tag (children ++ [child])]>
              (<[child := Container type slot_tag []]> h) in
  slot this slot_tag type h = Some (child, h') /\
  slot_const this slot_tag h' = Some (Some child, h').
Proof.
  intros Hthis Habsent child h'.
  assert (Hne : this <> child) by (apply (live_not_fresh _ _ _ Hthis)).
  split.
  - unfold slot, bind. rewrite (slot_const_live _ _ _ _ _ _ Hthis), Habsent.
    unfold new. fold child.
    rewrite (Container_insert_end_live _ _ ty tag children)
      by (rewrite lookup_insert_ne by (intros E; apply Hne; symmetry; exact E);
          exact Hthis).
    reflexivity.
  - assert (Hthis' : h' !! this = Some (Container ty tag (children ++ [child])))
      by (subst h'; apply lookup_insert_eq).
    rewrite (slot_const_live _ _ _ _ _ _ Hthis').
    assert (Hkept : find_tag children slot_tag h' = Some (None, h')).
    { apply (find_tag_transfer _ _ h); [exact Habsent |].
      intros k n _ Hk. subst h'.
      destruct (decide (k = this)) as [-> | Hkt].
      - rewrite lookup_insert_eq. rewrite Hthis in Hk. injection Hk as <-.
        reflexivity.
      - rewrite lookup_insert_ne by (intros E; apply Hkt; symmetry; exact E).
        rewrite lookup_insert_ne
          by (intros E; apply (live_not_fresh _ _ _ Hk); symmetry; exact E).
        rewrite Hk. reflexivity. }
    rewrite (find_tag_absent_app _ _ _ _ Hkept).
    apply (find_tag_head _ _ _ _ (Container type slot_tag [])); [| reflexivity].
    subst h'. rewrite lookup_insert_ne by exact Hne. apply lookup_insert_eq.
Qed.

(** Creation happens once: the second call finds what the first made. *)
Lemma slot_lazy h this slot_tag type ty tag children :
  h !! this = Some (Container ty tag children) ->
  find_tag children slot_tag h = Some (None, h) ->
  exists child h1,
    slot this slot_tag type h = Some (child, h1) /\
    h !! child = None /\
    h1 !! child = Some (Container type slot_tag []) /\
    h1 !! this = Some (Container ty tag (children ++ [child])) /\
    (forall x n, h !! x = Some n -> x <> this -> h1 !! x = Some n) /\
    slot_const this slot_tag h1 = Some (Some child, h1) /\
    slot this slot_tag type h1 = Some (child, h1).
Proof.
  intros Hthis Habsent.
  destruct (slot_created h this slot_tag type ty tag children Hthis Habsent)
    as [Hslot Hconst].
  set (child := fresh (dom h)) in *.
  set (h1 := <[this := Container ty tag (children ++ [child])]>
               (<[child := Container type slot_tag []]> h)) in *.
  assert (Hne : this <> child) by (apply (live_not_fresh _ _ _ Hthis)).
  exists child, h1.
  split; [exact Hslot |].
  split; [apply fresh_not_live |].
  split.
  { subst h1. rewrite lookup_insert_ne by exact Hne. apply lookup_insert_eq. }
  split; [subst h1; apply lookup_insert_eq |].
  split.
  { intros x n Hx Hxt. subst h1.
    rewrite lookup_insert_ne by (intros E; apply Hxt; symmetry; exact E).
    rewrite lookup_insert_ne
      by (intros E; apply (live_not_fresh _ _ _ Hx); symmetry; exact E).
    exact Hx. }
  split; [exact Hconst |].
  apply slot_existing. exact Hconst.
Qed.

End Store.

Section Invocation.
Context {values : Values} {tags : GlowTags}.
Import GlowInvocation.
Implicit Types (h : Heap) (p c this : addr) (n : Node) (tag : Tag).

(** ** The loop of [setTypedArguments] *)

Lemma setTypedArguments_loop_spec (range : list Value) :
  forall h c type tag children,
    h !! c = Some (Container type tag children) ->
    exists h' leaves,
      setTypedArguments_loop c range h = Some (tt, h') /\
      h' !! c = Some (Container type tag (children ++ leaves)) /\
      Forall2 (fun leaf v =>
                 h' !! leaf = Some (VariantLeaf ElementDefault (toBerValue v)))
              leaves range /\
      Forall (fun leaf => h !! leaf = None) leaves /\
      NoDup leaves /\
      (forall x n, h !! x = Some n -> x <> c -> h' !! x = Some n).
Proof.
  induction range as [| v range IH]; intros h c type tag children Hc.
  - exists h, []. simpl. rewrite app_nil_r.
    repeat split; try constructor; auto.
  - simpl. unfold bind at 1. unfold new.
    set (a := fresh (dom h)).
    set (leaf := VariantLeaf ElementDefault (toBerValue v)).
    assert (Hca : c <> a) by (apply (live_not_fresh _ _ _ Hc)).
    assert (Hc1 : <[a := leaf]> h !! c = Some (Container type tag children))
      by (rewrite lookup_insert_ne by (intros E; apply Hca; symmetry; exact E);
          exact Hc).
    unfold bind at 1.
    rewrite (Container_insert_end_live _ _ _ _ _ a Hc1).
    set (h1 := <[c := Container type tag (children ++ [a])]> (<[a := leaf]> h)).
    assert (Hc2 : h1 !! c = Some (Container type tag (children ++ [a])))
      by (subst h1; apply lookup_insert_eq).
    assert (Ha1 : h1 !! a = Some leaf).
    { subst h1. rewrite lookup_insert_ne by exact Hca. apply lookup_insert_eq. }
    destruct (IH h1 c type tag (children ++ [a]) Hc2)
      as (h' & leaves & Hrun & Hc' & Hleaves & Hfresh & Hnodup & Hframe).
    exists h', (a :: leaves).
    split; [exact Hrun |].
    split; [rewrite Hc', <- app_assoc; reflexivity |].
    split.
    { constructor; [| exact Hleaves].
      apply Hframe; [exact Ha1 |]. intros E. apply Hca. symmetry. exact E. }
    split.
    { constructor; [apply fresh_not_live |].
      eapply Forall_impl; [exact Hfresh |]. intros x Hx. simpl in Hx.
      subst h1. apply lookup_insert_None in Hx as [Hx _].
      apply lookup_insert_None in Hx as [Hx _]. exact Hx. }
    split.
    { constructor; [| exact Hnodup].
      intros Hin. rewrite Forall_forall in Hfresh.
      specialize (Hfresh a Hin). simpl in Hfresh. rewrite Ha1 in Hfresh.
      discriminate. }
    intros x n Hx Hxc. apply Hframe; [| exact Hxc].
    subst h1. rewrite lookup_insert_ne by (intros E; apply Hxc; symmetry; exact E).
    rewrite lookup_insert_ne
      by (intros E; apply (live_not_fresh _ _ _ Hx); symmetry; exact E).
    exact Hx.
Qed.

(** ** The loop of [typedArguments] *)

Lemma typedArguments_loop_spec (range : list addr) :
  forall dest size h,
    Forall (fun child => is_Some (h !! child)) range ->
    typedArguments_loop range dest size h =
      Some ((dest ++ leaf_values h range,
             (size + length (leaf_values h range))%nat), h).
Proof.
  induction range as [| k range IH]; intros dest size h Hlive.
  - simpl. rewrite app_nil_r, Nat.add_0_r. reflexivity.
  - apply Forall_cons in Hlive as [[n Hk] Hlive].
    simpl. unfold bind. rewrite (deref_live _ _ _ Hk).
    unfold leaf_values. simpl. rewrite Hk.
    destruct n as [tag value | type tag children].
    + rewrite (IH _ _ _ Hlive). unfold leaf_values. simpl.
      rewrite <- app_assoc. simpl. repeat f_equal. lia.
    + rewrite (IH _ _ _ Hlive). reflexivity.
Qed.

Lemma leaf_values_of_leaves h (leaves : list addr) (range : list Value) :
  Forall2 (fun leaf v =>
             h !! leaf = Some (VariantLeaf ElementDefault (toBerValue v)))
          leaves range ->
  leaf_values h leaves = map (fun v => Value_of_ber (toBerValue v)) range /\
  Forall (fun child => is_Some (h !! child)) leaves.
Proof.
  induction 1 as [| leaf v leaves range Hleaf _ [IHv IHl]].
  - split; [reflexivity | constructor].
  - split.
    + unfold leaf_values. simpl. rewrite Hleaf. simpl. f_equal. exact IHv.
    + constructor; [eauto | exact IHl].
Qed.

(** [typedArguments] looks at the invocation, at the arguments container and
    at each child of that container, and at nothing else. *)
Lemma typedArguments_spec h this container type tag children dest :
  arguments_const this h = Some (Some container, h) ->
  h !! container = Some (Container type tag children) ->
  Forall (fun child => is_Some (h !! child)) children ->
  typedArguments this dest h =
    Some ((dest ++ leaf_values h children,
           length (leaf_values h children)), h).
Proof.
  intros Hargs Hc Hlive. unfold typedArguments, bind. rewrite Hargs.
  rewrite (Container_children_live _ _ _ _ _ Hc).
  rewrite (typedArguments_loop_spec _ _ _ _ Hlive). reflexivity.
Qed.

Lemma typedArguments_absent h this dest :
  arguments_const this h = Some (None, h) ->
  typedArguments this dest h = Some ((dest, 0%nat), h).
Proof. intros Hargs. unfold typedArguments, bind. rewrite Hargs. reflexivity. Qed.

(** ** [setTypedArguments], once the arguments container is at hand *)

Lemma setTypedArguments_fill h this container type tag children
    (range : list Value) :
  h !! container = Some (Container type tag children) ->
  container <> this ->
  arguments_const this h = Some (Some container, h) ->
  exists h' leaves,
    (Container_clear container ;; setTypedArguments_loop container range) h
      = Some (tt, h') /\
    arguments_const this h' = Some (Some container, h') /\
    h' !! container = Some (Container type tag leaves) /\
    Forall2 (fun leaf v =>
               h' !! leaf = Some (VariantLeaf ElementDefault (toBerValue v)))
            leaves range /\
    Forall (fun leaf => h !! leaf = None) leaves /\
    NoDup leaves /\
    (forall x n, h !! x = Some n -> x <> container -> h' !! x = Some n).
Proof.
  intros Hc Hne Hargs.
  unfold bind. rewrite (Container_clear_live _ _ _ _ _ Hc).
  set (h1 := <[container := Container type tag []]> h).
  assert (Hc1 : h1 !! container = Some (Container type tag []))
    by (subst h1; apply lookup_insert_eq).
  destruct (setTypedArguments_loop_spec range h1 container type tag [] Hc1)
    as (h' & leaves & Hrun & Hc' & Hleaves & Hfresh & Hnodup & Hframe).
  simpl in Hc'.
  assert (Hkeep : forall x n, h !! x = Some n -> x <> container ->
                              h' !! x = Some n).
  { intros x n Hx Hxc. apply Hframe; [| exact Hxc].
    subst h1. rewrite lookup_insert_ne by (intros E; apply Hxc; symmetry; exact E).
    exact Hx. }
  exists h', leaves.
  split; [exact Hrun |].
  split.
  { unfold arguments_const in *.
    apply (slot_const_transfer h); [exact Hargs | |].
    - intros ty t kids Hthis. apply Hkeep; [exact Hthis |].
      intros E. apply Hne. symmetry. exact E.
    - intros ty t kids k n _ _ Hk.
      destruct (decide (k = container)) as [-> | Hkc].
      + rewrite Hc'. rewrite Hc in Hk. injection Hk as <-. reflexivity.
      + rewrite (Hkeep _ _ Hk Hkc). reflexivity. }
  split; [exact Hc' |].
  split; [exact Hleaves |].
  split.
  { eapply Forall_impl; [exact Hfresh |]. intros x Hx. simpl in Hx.
    subst h1. apply lookup_insert_None in Hx as [Hx _]. exact Hx. }
  split; [exact Hnodup | exact Hkeep].
Qed.

(** ** [setTypedArguments] as a whole

    [found] is what the read-only accessor sees before the call.  The
    invocation must be a tree: the arguments slot, when present, holds a
    container other than the invocation itself. *)
Lemma setTypedArguments_post h this found (range : list Value) :
  arguments_const this h = Some (found, h) ->
  (forall a, found = Some a ->
     a <> this /\ exists ty t ks, h !! a = Some (Container ty t ks)) ->
  exists h' container type leaves,
    setTypedArguments this range h = Some (tt, h') /\
    arguments_const this h' = Some (Some container, h') /\
    h' !! container = Some (Container type Invocation_Arguments leaves) /\
    Forall2 (fun leaf v =>
               h' !! leaf = Some (VariantLeaf ElementDefault (toBerValue v)))
            leaves range /\
    Forall (fun leaf => h !! leaf = None) leaves /\
    NoDup leaves /\
    (found = None -> h !! container = None) /\
    (forall a, found = Some a -> container = a) /\
    (forall x n, h !! x = Some n -> x <> this -> x <> container ->
                 h' !! x = Some n) /\
    (exists ty t kids,
       h !! this = Some (Container ty t kids) /\
       h' !! this = Some (Container ty t
                            (match found with
                             | Some _ => kids
                             | None => kids ++ [container]
                             end))).
Proof.
  intros Hargs Hshape.
  destruct (slot_const_inv _ _ _ _ Hargs) as (ty & t & kids & Hthis & Hfind).
  destruct found as [a |].
  - destruct (Hshape a eq_refl) as (Hne & ty_a & t_a & ks & Ha).
    destruct (find_tag_found _ _ _ _ Hfind) as (_ & n & Hn & Htag).
    rewrite Ha in Hn. injection Hn as <-. simpl in Htag. subst t_a.
    destruct (setTypedArguments_fill h this a ty_a Invocation_Arguments ks
                range Ha Hne Hargs)
      as (h' & leaves & Hrun & Hargs' & Ha' & Hleaves & Hfresh & Hnodup & Hkeep).
    exists h', a, ty_a, leaves.
    split.
    { unfold setTypedArguments, arguments.
      unfold bind at 1. rewrite (slot_existing _ _ _ _ _ Hargs). exact Hrun. }
    split; [exact Hargs' |]. split; [exact Ha' |]. split; [exact Hleaves |].
    split; [exact Hfresh |]. split; [exact Hnodup |].
    split; [discriminate |].
    split; [intros a0 [= <-]; reflexivity |].
    split; [intros x n Hx _ Hxa; exact (Hkeep _ _ Hx Hxa) |].
    exists ty, t, kids. split; [exact Hthis |].
    apply Hkeep; [exact Hthis |]. intros E. apply Hne. symmetry. exact E.
  - destruct (slot_created h this Invocation_Arguments Sequence ty t kids
                Hthis Hfind) as [Hslot Hargs0].
    set (a := fresh (dom h)) in *.
    set (h0 := <[this := Container ty t (kids ++ [a])]>
                 (<[a := Container Sequence Invocation_Arguments []]> h)) in *.
    assert (Hne : a <> this).
    { intros E. apply (live_not_fresh _ _ _ Hthis). symmetry. exact E. }
    assert (Ha0 : h0 !! a = Some (Container Sequence Invocation_Arguments [])).
    { subst h0. rewrite lookup_insert_ne
        by (intros E; apply Hne; symmetry; exact E).
      apply lookup_insert_eq. }
    assert (Hthis0 : h0 !! this = Some (Container ty t (kids ++ [a])))
      by (subst h0; apply lookup_insert_eq).
    destruct (setTypedArguments_fill h0 this a Sequence Invocation_Arguments []
                range Ha0 Hne Hargs0)
      as (h' & leaves & Hrun & Hargs' & Ha' & Hleaves & Hfresh & Hnodup & Hkeep).
    exists h', a, Sequence, leaves.
    split.
    { unfold setTypedArguments, arguments.
      unfold bind at 1. rewrite Hslot. exact Hrun. }
    split; [exact Hargs' |]. split; [exact Ha' |]. split; [exact Hleaves |].
    split.
    { eapply Forall_impl; [exact Hfresh |]. intros x Hx. simpl in Hx.
      subst h0. apply lookup_insert_None in Hx as [Hx _].
      apply lookup_insert_None in Hx as [Hx _]. exact Hx. }
    split; [exact Hnodup |].
    split; [intros _; apply fresh_not_live |].
    split; [discriminate |].
    split.
    { intros x n Hx Hxt Hxa. apply Hkeep; [| exact Hxa].
      subst h0. rewrite lookup_insert_ne
        by (intros E; apply Hxt; symmetry; exact E).
      rewrite lookup_insert_ne by (intros E; apply Hxa; symmetry; exact E).
      exact Hx. }
    exists ty, t, kids. split; [exact Hthis |].
    apply Hkeep; [exact Hthis0 |]. intros E. apply Hne. symmetry. exact E.
Qed.

Lemma leaf_values_agree h h2 (children : list addr) :
  (forall k, k ∈ children -> h2 !! k = h !! k) ->
  leaf_values h2 children = leaf_values h children /\
  (Forall (fun child => is_Some (h !! child)) children ->
   Forall (fun child => is_Some (h2 !! child)) children).
Proof.
  induction children as [| k children IH]; intros Hagree.
  - split; [reflexivity | constructor].
  - destruct IH as [IHv IHl].
    { intros k' Hin. apply Hagree. right. exact Hin. }
    pose proof (Hagree k ltac:(left)) as Hk.
    split.
    + change (leaf_values h2 (k :: children)) with
        (match (match h2 !! k with
                | Some (VariantLeaf _ value) => Some (Value_of_ber value)
                | _ => None
                end) with
         | Some y => y :: leaf_values h2 children
         | None => leaf_values h2 children
         end).
      rewrite Hk, IHv. reflexivity.
    + intros Hlive. apply Forall_cons in Hlive as [Hk' Hlive].
      constructor; [rewrite Hk; exact Hk' | exact (IHl Hlive)].
Qed.

End Invocation.

(** ** The claims on [GlowInvocation] *)

(** C3.  For every invocation and every input sequence of values,
    [setTypedArguments] leaves the arguments container with exactly one
    leaf per input value and nothing else: the leaves are new objects (none
    existed before the call, so every former child is gone), pairwise
    distinct, in input order, each a [VariantLeaf] under
    [GlowTags::ElementDefault()] that carries the value's BER value; the
    container has as many children as there were input values. *)
Theorem setTypedArguments_replaces_children
    {values : Values} {tags : GlowTags}
    (h : Heap) (this : addr) (found : option addr) (range : list Value) :
  GlowInvocation.arguments_const this h = Some (found, h) ->
  (forall a, found = Some a ->
     a <> this /\ exists ty t ks, h !! a = Some (Container ty t ks)) ->
  exists h' container type leaves,
    GlowInvocation.setTypedArguments this range h = Some (tt, h') /\
    GlowInvocation.arguments_const this h' = Some (Some container, h') /\
    h' !! container = Some (Container type Invocation_Arguments leaves) /\
    length leaves = length range /\
    Forall2 (fun leaf v =>
               h' !! leaf = Some (VariantLeaf ElementDefault (toBerValue v)))
            leaves range /\
    Forall (fun leaf => h !! leaf = None) leaves /\
    NoDup leaves.
Proof.
  intros Hargs Hshape.
  destruct (setTypedArguments_post h this found range Hargs Hshape)
    as (h' & container & type & leaves & Hrun & Hargs' & Hc & Hleaves
        & Hfresh & Hnodup & _).
  exists h', container, type, leaves.
  repeat split; try assumption.
  exact (Forall2_length _ _ _ Hleaves).
Qed.

Lemma setTypedArguments_replaces_children_witness :
  (GlowInvocation.arguments_const (values := integer_values) (tags := sample_tags) 1%positive
     sample_invocation = Some (Some 2%positive, sample_invocation) /\
   (forall a, Some 2%positive = Some a ->
      a <> 1%positive /\
      exists ty t ks, sample_invocation !! a = Some (Container ty t ks))) /\
  exists h' container type leaves,
    GlowInvocation.setTypedArguments (values := integer_values) (tags := sample_tags) 1%positive
      [10%Z; 20%Z] sample_invocation = Some (tt, h') /\
    GlowInvocation.arguments_const (values := integer_values) (tags := sample_tags) 1%positive h'
      = Some (Some container, h') /\
    h' !! container = Some (Container type (mkTag 2 1) leaves) /\
    length leaves = 2%nat /\
    Forall2 (fun leaf v => h' !! leaf = Some (VariantLeaf (values := integer_values) (mkTag 2 0) v))
            leaves [10%Z; 20%Z] /\
    Forall (fun leaf => sample_invocation !! leaf = None) leaves /\
    NoDup leaves.
Proof.
  assert (H1 : GlowInvocation.arguments_const (values := integer_values) (tags := sample_tags) 1%positive
                 sample_invocation = Some (Some 2%positive, sample_invocation))
    by (vm_compute; reflexivity).
  assert (H2 : forall a, Some 2%positive = Some a ->
                 a <> 1%positive /\
                 exists ty t ks,
                   sample_invocation !! a = Some (Container ty t ks)).
  { intros a [= <-]. split; [discriminate |].
    eexists _, _, _. vm_compute. reflexivity. }
  split; [exact (conj H1 H2) |].
  exact (setTypedArguments_replaces_children
           (values := integer_values) (tags := sample_tags)
           sample_invocation 1%positive (Some 2%positive) [10%Z; 20%Z] H1 H2).
Defined.

(** C10.  [setTypedArguments] with an empty range still changes the tree:
    afterwards the invocation has an arguments container and that container
    is empty.  Where there was none, one was created (the store has a new
    object and differs from the one before); where there was one, it is the
    same object, emptied (the store differs as soon as it had a child). *)
Theorem setTypedArguments_empty_range_mutates
    {values : Values} {tags : GlowTags}
    (h : Heap) (this : addr) (found : option addr) :
  GlowInvocation.arguments_const this h = Some (found, h) ->
  (forall a, found = Some a ->
     a <> this /\ exists ty t ks, h !! a = Some (Container ty t ks)) ->
  exists h' container type,
    GlowInvocation.setTypedArguments this [] h = Some (tt, h') /\
    GlowInvocation.arguments_const this h' = Some (Some container, h') /\
    h' !! container = Some (Container type Invocation_Arguments []) /\
    (found = None ->
       h !! container = None /\ h' <> h /\
       exists ty t kids,
         h !! this = Some (Container ty t kids) /\
         h' !! this = Some (Container ty t (kids ++ [container]))) /\
    (forall a ty t ks,
       found = Some a -> h !! a = Some (Container ty t ks) ->
       container = a /\ (ks <> [] -> h' <> h)).
Proof.
  intros Hargs Hshape.
  destruct (setTypedArguments_post h this found [] Hargs Hshape)
    as (h' & container & type & leaves & Hrun & Hargs' & Hc & Hleaves
        & _ & _ & Hnew & Hold & _ & (ty & t & kids & Hthis & Hthis')).
  apply Forall2_nil_inv_r in Hleaves. subst leaves.
  exists h', container, type.
  split; [exact Hrun |]. split; [exact Hargs' |]. split; [exact Hc |].
  split.
  - intros ->. specialize (Hnew eq_refl).
    split; [exact Hnew |].
    split.
    + intros E. rewrite E, Hnew in Hc. discriminate.
    + exists ty, t, kids. split; [exact Hthis | exact Hthis'].
  - intros a ty_a t_a ks Hfound Ha.
    pose proof (Hold a Hfound) as ->.
    split; [reflexivity |].
    intros Hks E. rewrite E, Ha in Hc. injection Hc as _ _ Hnil.
    exact (Hks Hnil).
Qed.

Lemma setTypedArguments_empty_range_mutates_witness :
  (GlowInvocation.arguments_const (values := integer_values) (tags := sample_tags) 1%positive
     bare_invocation = Some (None, bare_invocation) /\
   (forall a, None = Some a ->
      a <> 1%positive /\
      exists ty t ks, bare_invocation !! a = Some (Container ty t ks))) /\
  exists h' container type,
    GlowInvocation.setTypedArguments (values := integer_values) (tags := sample_tags) 1%positive []
      bare_invocation = Some (tt, h') /\
    GlowInvocation.arguments_const (values := integer_values) (tags := sample_tags) 1%positive h'
      = Some (Some container, h') /\
    h' !! container = Some (Container type (mkTag 2 1) []) /\
    h' <> bare_invocation.
Proof.
  assert (H1 : GlowInvocation.arguments_const (values := integer_values) (tags := sample_tags) 1%positive
                 bare_invocation = Some (None, bare_invocation))
    by (vm_compute; reflexivity).
  assert (H2 : forall a, @None addr = Some a ->
                 a <> 1%positive /\
                 exists ty t ks, bare_invocation !! a = Some (Container ty t ks))
    by (intros a [=]).
  split; [exact (conj H1 H2) |].
  destruct (setTypedArguments_empty_range_mutates
              (values := integer_values) (tags := sample_tags)
              bare_invocation 1%positive None H1 H2)
    as (h' & container & type & Hrun & Hargs & Hc & Hnone & _).
  exists h', container, type.
  split; [exact Hrun |]. split; [exact Hargs |]. split; [exact Hc |].
  exact (proj1 (proj2 (Hnone eq_refl))).
Defined.

(** On the sample tree: the two leaves are copied in order, the nested
    sequence between them is passed over and the leaf inside it is not
    looked at. *)
Example typedArguments_sample :
  GlowInvocation.typedArguments (values := integer_values)
    (tags := sample_tags) 1%positive [] sample_invocation =
    Some (([7%Z; 8%Z], 2%nat), sample_invocation).
Proof. vm_compute. reflexivity. Qed.

(** On the sample tree: what was set is what is read back, and the three
    former children of the arguments container are gone. *)
Example setTypedArguments_round_trip_sample :
  fst <$> (GlowInvocation.setTypedArguments (values := integer_values)
             (tags := sample_tags) 1%positive [10%Z; 20%Z; 30%Z] ;;
           GlowInvocation.typedArguments (values := integer_values)
             (tags := sample_tags) 1%positive []) sample_invocation =
    Some ([10%Z; 20%Z; 30%Z], 3%nat).
Proof. vm_compute. reflexivity. Qed.

(** ** The claims on [GlowFunctionBase] *)

(** C7.  For every function node that has no arguments, no result and no
    children child: the read-only accessors return null, [typedArguments]
    and [typedResult] return 0 and leave the destination as it was, and
    none of the five changes the store.  Each mutable accessor creates its
    backing child, an empty container under the slot's tag appended to the
    node, at a fresh address; called again, it returns that same object and
    changes nothing. *)
Theorem function_views_create_once
    {values : Values} {tags : GlowTags}
    (h : Heap) (this : addr) (childrenTag tag : Tag) (kids : list addr)
    (dest : list addr) :
  h !! this = Some (Container (FunctionBase childrenTag) tag kids) ->
  find_tag kids FunctionContents_Arguments h = Some (None, h) ->
  find_tag kids FunctionContents_Result h = Some (None, h) ->
  find_tag kids childrenTag h = Some (None, h) ->
  (GlowFunctionBase.arguments_const this h = Some (None, h) /\
   GlowFunctionBase.result_const this h = Some (None, h) /\
   GlowFunctionBase.children_const this h = Some (None, h) /\
   GlowFunctionBase.typedArguments this dest h = Some ((dest, 0%nat), h) /\
   GlowFunctionBase.typedResult this dest h = Some ((dest, 0%nat), h)) /\
  (exists child h1,
     GlowFunctionBase.arguments this h = Some (child, h1) /\
     h !! child = None /\
     h1 !! child = Some (Container Sequence FunctionContents_Arguments []) /\
     h1 !! this = Some (Container (FunctionBase childrenTag) tag
                          (kids ++ [child])) /\
     GlowFunctionBase.arguments this h1 = Some (child, h1) /\
     GlowFunctionBase.arguments_const this h1 = Some (Some child, h1)) /\
  (exists child h1,
     GlowFunctionBase.result this h = Some (child, h1) /\
     h !! child = None /\
     h1 !! child = Some (Container Sequence FunctionContents_Result []) /\
     h1 !! this = Some (Container (FunctionBase childrenTag) tag
                          (kids ++ [child])) /\
     GlowFunctionBase.result this h1 = Some (child, h1) /\
     GlowFunctionBase.result_const this h1 = Some (Some child, h1)) /\
  (exists child h1,
     GlowFunctionBase.children this h = Some (child, h1) /\
     h !! child = None /\
     h1 !! child = Some (Container ElementCollection childrenTag []) /\
     h1 !! this = Some (Container (FunctionBase childrenTag) tag
                          (kids ++ [child])) /\
     GlowFunctionBase.children this h1 = Some (child, h1) /\
     GlowFunctionBase.children_const this h1 = Some (Some child, h1)).
Proof.
  intros Hthis Hargs Hres Hkids.
  assert (Htag : forall h0 ks,
            h0 !! this = Some (Container (FunctionBase childrenTag) tag ks) ->
            GlowFunctionBase.m_childrenTag_of this h0 = Some (childrenTag, h0)).
  { intros h0 ks H0. unfold GlowFunctionBase.m_childrenTag_of, bind.
    rewrite (deref_live _ _ _ H0). reflexivity. }
  assert (Ha : GlowFunctionBase.arguments_const this h = Some (None, h)).
  { unfold GlowFunctionBase.arguments_const.
    rewrite (slot_const_live _ _ _ _ _ _ Hthis). exact Hargs. }
  assert (Hr : GlowFunctionBase.result_const this h = Some (None, h)).
  { unfold GlowFunctionBase.result_const.
    rewrite (slot_const_live _ _ _ _ _ _ Hthis). exact Hres. }
  split; [| split; [| split]].
  - split; [exact Ha |]. split; [exact Hr |].
    split.
    { unfold GlowFunctionBase.children_const, bind.
      rewrite (Htag _ _ Hthis), (slot_const_live _ _ _ _ _ _ Hthis).
      exact Hkids. }
    split.
    + unfold GlowFunctionBase.typedArguments, bind. rewrite Ha. reflexivity.
    + unfold GlowFunctionBase.typedResult, bind. rewrite Hr. reflexivity.
  - destruct (slot_lazy h this FunctionContents_Arguments Sequence _ _ _
                Hthis Hargs)
      as (child & h1 & Hslot & Hnew & Hchild & Hthis1 & _ & Hconst & Hagain).
    exists child, h1. repeat split; assumption.
  - destruct (slot_lazy h this FunctionContents_Result Sequence _ _ _
                Hthis Hres)
      as (child & h1 & Hslot & Hnew & Hchild & Hthis1 & _ & Hconst & Hagain).
    exists child, h1. repeat split; assumption.
  - destruct (slot_lazy h this childrenTag ElementCollection _ _ _
                Hthis Hkids)
      as (child & h1 & Hslot & Hnew & Hchild & Hthis1 & _ & Hconst & Hagain).
    exists child, h1.
    split.
    { unfold GlowFunctionBase.children, bind. rewrite (Htag _ _ Hthis).
      exact Hslot. }
    split; [exact Hnew |]. split; [exact Hchild |]. split; [exact Hthis1 |].
    split.
    + unfold GlowFunctionBase.children, bind. rewrite (Htag _ _ Hthis1).
      exact Hagain.
    + unfold GlowFunctionBase.children_const, bind. rewrite (Htag _ _ Hthis1).
      exact Hconst.
Qed.

Lemma function_views_create_once_witness :
  (bare_function !! 1%positive =
     Some (Container (values := integer_values)
             (FunctionBase (mkTag 2 4)) (mkTag 1 19) []) /\
   find_tag (values := integer_values) []
     (FunctionContents_Arguments (GlowTags := sample_tags)) bare_function
     = Some (None, bare_function) /\
   find_tag (values := integer_values) []
     (FunctionContents_Result (GlowTags := sample_tags)) bare_function
     = Some (None, bare_function) /\
   find_tag (values := integer_values) [] (mkTag 2 4) bare_function
     = Some (None, bare_function)) /\
  GlowFunctionBase.typedArguments (values := integer_values)
    (tags := sample_tags) 1%positive [] bare_function
    = Some (([], 0%nat), bare_function) /\
  exists child h1,
    GlowFunctionBase.children (values := integer_values) 1%positive bare_function = Some (child, h1) /\
    GlowFunctionBase.children (values := integer_values) 1%positive h1 = Some (child, h1).
Proof.
  assert (H1 : bare_function !! 1%positive =
                 Some (Container (values := integer_values)
                         (FunctionBase (mkTag 2 4)) (mkTag 1 19) []))
    by (vm_compute; reflexivity).
  assert (H2 : find_tag (values := integer_values) []
                 (FunctionContents_Arguments (GlowTags := sample_tags))
                 bare_function = Some (None, bare_function)) by reflexivity.
  assert (H3 : find_tag (values := integer_values) []
                 (FunctionContents_Result (GlowTags := sample_tags))
                 bare_function = Some (None, bare_function)) by reflexivity.
  assert (H4 : find_tag (values := integer_values) [] (mkTag 2 4)
                 bare_function = Some (None, bare_function)) by reflexivity.
  split; [exact (conj H1 (conj H2 (conj H3 H4))) |].
  destruct (function_views_create_once
              (values := integer_values) (tags := sample_tags)
              bare_function 1%positive (mkTag 2 4) (mkTag 1 19) [] []
              H1 H2 H3 H4)
    as ((_ & _ & _ & Htyped & _) & _ & _
        & (child & h1 & Hfirst & _ & _ & _ & Hsecond & _)).
  split; [exact Htyped |].
  exists child, h1. split; [exact Hfirst | exact Hsecond].
Defined.

End Glow_Properties.

(* ===================================================================== *)
(** * Part V : the stream decoder on whole streams                        *)
(* ===================================================================== *)

Module S101_Streams.
Import S101 S101_Properties.
Local Open Scope Z_scope.

Section Steps.
Context {byte_consts : Byte} {crc16 : Crc16}.

Lemma static_cast_idem (x : Z) : static_cast (static_cast x) = static_cast x.
Proof. unfold static_cast. apply Z.mod_mod. lia. Qed.

Lemma crc_of_snoc (bytes : list Z) (x : Z) :
  crc_of (bytes ++ [x]) = Crc16_add (crc_of bytes) x.
Proof. unfold crc_of. rewrite fold_left_app. reflexivity. Qed.

Lemma lxor_twice (x m : Z) : Z.lxor (Z.lxor x m) m = x.
Proof. rewrite Z.lxor_assoc, Z.lxor_nilpotent, Z.lxor_0_r. reflexivity. Qed.

(** The two cases of the switch the earlier lemmas leave out. *)
Lemma readByte_state_CE {W S : Type} (input : Z)
    (callback : list Z -> S -> W -> W) (state : S)
    (d : StreamDecoder) (w : W) :
  m_escape d = false -> static_cast input = CE -> CE <> BoF -> CE <> EoF ->
  readByte_state input callback state d w =
    ({| m_bytes := m_bytes d; m_escape := true; m_crc := m_crc d |}, w).
Proof.
  intros He Hb H1 H2. unfold readByte_state. rewrite He, Hb.
  destruct (Z.eqb_spec CE BoF); [contradiction |].
  destruct (Z.eqb_spec CE EoF); [contradiction |].
  rewrite Z.eqb_refl. reflexivity.
Qed.

Lemma readByte_state_data {W S : Type} (input : Z)
    (callback : list Z -> S -> W -> W) (state : S)
    (d : StreamDecoder) (w : W) :
  m_escape d = false -> is_marker (static_cast input) = false ->
  readByte_state input callback state d w =
    ({| m_bytes := m_bytes d ++ [static_cast input]; m_escape := false;
        m_crc := Crc16_add (m_crc d) (static_cast input) |}, w).
Proof.
  intros He Hm. unfold is_marker in Hm.
  apply orb_false_iff in Hm as [Hm Hce].
  apply orb_false_iff in Hm as [Hbof Heof].
  unfold readByte_state. rewrite He, Hbof, Heof, Hce.
  unfold push_back, set_crc. simpl. rewrite static_cast_idem, He.
  reflexivity.
Qed.

(** Every step is one of five: the decoder and the world after it, by the
    branch taken. *)
Lemma readByte_state_cases {W S : Type} (input : Z)
    (callback : list Z -> S -> W -> W) (state : S)
    (d : StreamDecoder) (w : W) :
  (m_escape d = true /\
   readByte_state input callback state d w =
     ({| m_bytes := m_bytes d ++
                      [static_cast (Z.lxor (static_cast input) XOR)];
         m_escape := false;
         m_crc := Crc16_add (m_crc d) (Z.lxor (static_cast input) XOR) |},
      w)) \/
  (m_escape d = false /\
   readByte_state input callback state d w = (StreamDecoder_new, w)) \/
  (m_escape d = false /\ static_cast input = EoF /\
   m_crc d = 0xF0B8 /\ (2 <= length (m_bytes d))%nat /\
   readByte_state input callback state d w =
     (StreamDecoder_new, callback (payload d) state w)) \/
  (m_escape d = false /\
   readByte_state input callback state d w =
     ({| m_bytes := m_bytes d; m_escape := true; m_crc := m_crc d |}, w)) \/
  (m_escape d = false /\
   readByte_state input callback state d w =
     ({| m_bytes := m_bytes d ++ [static_cast input]; m_escape := false;
         m_crc := Crc16_add (m_crc d) (static_cast input) |}, w)).
Proof.
  destruct (m_escape d) eqn:He.
  - left. split; [reflexivity |]. apply readByte_state_escaped. exact He.
  - right. unfold readByte_state. rewrite He.
    destruct (static_cast input =? BoF) eqn:Hbof.
    { left. split; reflexivity. }
    destruct (Z.eqb_spec (static_cast input) EoF) as [Heof | Heof].
    { destruct ((m_crc d =? 0xF0B8) && (1 <? length (m_bytes d))%nat) eqn:Hg.
      - right. left. apply EoF_guard_spec in Hg as [Hc Hl].
        repeat split; assumption.
      - left. split; reflexivity. }
    right. right.
    destruct (static_cast input =? CE) eqn:Hce.
    { left. split; reflexivity. }
    right. split; [reflexivity |].
    unfold push_back, set_crc. simpl. rewrite static_cast_idem, He.
    reflexivity.
Qed.

(** A property of decoder and world that every step keeps holds after every
    run. *)
Lemma read_invariant {W : Type} (P : StreamDecoder -> W -> Prop)
    (callback : list Z -> W -> W) :
  (forall input d w, P d w ->
     P (fst (readByte input callback d w))
       (snd (readByte input callback d w))) ->
  forall range d w, P d w ->
    P (fst (read range callback d w)) (snd (read range callback d w)).
Proof.
  intros Hstep range. induction range as [| b range IH]; intros d w HP.
  - exact HP.
  - simpl. specialize (Hstep b d w HP).
    destruct (readByte b callback d w) as [d1 w1]. apply IH. exact Hstep.
Qed.

Lemma split_last_two (l : list Z) :
  (2 <= length l)%nat ->
  exists c1 c2, l = firstn (length l - 2) l ++ [c1; c2].
Proof.
  intros Hl.
  pose proof (firstn_skipn (length l - 2) l) as Hsplit.
  pose proof (length_skipn (length l - 2) l) as Hlen.
  destruct (skipn (length l - 2) l) as [| c1 [| c2 [| c3 rest]]];
    simpl in Hlen; try lia.
  exists c1, c2. symmetry. exact Hsplit.
Qed.

End Steps.

(** ** Invariants of a run *)

(** X1.  The running checksum is always the checksum of the buffer: if
    [m_crc] is [Crc16::add] folded over [m_bytes] before a run of [read], it
    is so after it, whatever bytes were fed (the escape mask being a byte).
    In particular this holds in every state a new decoder reaches. *)
Theorem read_keeps_crc_of_buffer
    {byte_consts : Byte} {crc16 : Crc16} {W : Type} (range : list Z)
    (callback : list Z -> W -> W) (d : StreamDecoder) (w : W) :
  0 <= XOR < 256 ->
  m_crc d = crc_of (m_bytes d) ->
  m_crc (fst (read range callback d w)) =
    crc_of (m_bytes (fst (read range callback d w))).
Proof.
  intros Hx Hd.
  apply (read_invariant (fun d _ => m_crc d = crc_of (m_bytes d)));
    [| exact Hd].
  clear d w Hd. intros input d w Hd. unfold readByte.
  destruct (readByte_state_cases input invokeStatelessCallback callback d w)
    as [[He ->] | [[He ->] | [(He & Hb & Hc & Hl & ->) | [[He ->] | [He ->]]]]];
    simpl; try reflexivity; try exact Hd.
  - rewrite (static_cast_byte (Z.lxor (static_cast input) XOR))
      by (apply lxor_byte; [apply static_cast_range | exact Hx]).
    rewrite crc_of_snoc, Hd. reflexivity.
  - rewrite crc_of_snoc, Hd. reflexivity.
Qed.

Lemma read_keeps_crc_of_buffer_witness :
  (0 <= XOR (Byte := s101_bytes) < 256 /\
   m_crc StreamDecoder_new = crc_of (crc16 := x25_crc)
                               (m_bytes StreamDecoder_new)) /\
  m_crc (fst (read (byte_consts := s101_bytes) (crc16 := x25_crc)
                [0xFE; 0x01; 0xFD; 0xDE; 0x02] record_payload
                StreamDecoder_new [])) =
    crc_of (crc16 := x25_crc)
      (m_bytes (fst (read (byte_consts := s101_bytes) (crc16 := x25_crc)
                       [0xFE; 0x01; 0xFD; 0xDE; 0x02] record_payload
                       StreamDecoder_new []))).
Proof.
  assert (H1 : 0 <= XOR (Byte := s101_bytes) < 256) by (simpl; lia).
  assert (H2 : m_crc StreamDecoder_new =
               crc_of (crc16 := x25_crc) (m_bytes StreamDecoder_new))
    by reflexivity.
  split; [exact (conj H1 H2) |].
  exact (read_keeps_crc_of_buffer
           (byte_consts := s101_bytes) (crc16 := x25_crc)
           [0xFE; 0x01; 0xFD; 0xDE; 0x02] record_payload
           StreamDecoder_new [] H1 H2).
Defined.

(** X2.  Only bytes are buffered and only bytes are delivered: if every
    element of the buffer lies in 0..255 before a run, so does every element
    of the buffer after it and of every payload handed to the callback,
    whatever integers were fed and whatever the constants are. *)
Theorem read_buffers_bytes
    {byte_consts : Byte} {crc16 : Crc16} (range : list Z)
    (d : StreamDecoder) (log : list (list Z)) :
  Forall (fun x => 0 <= x < 256) (m_bytes d) ->
  Forall (Forall (fun x => 0 <= x < 256)) log ->
  Forall (fun x => 0 <= x < 256)
         (m_bytes (fst (read range record_payload d log))) /\
  Forall (Forall (fun x => 0 <= x < 256))
         (snd (read range record_payload d log)).
Proof.
  intros Hd Hlog.
  apply (read_invariant
           (fun d log => Forall (fun x => 0 <= x < 256) (m_bytes d) /\
                         Forall (Forall (fun x => 0 <= x < 256)) log));
    [| exact (conj Hd Hlog)].
  clear d log Hd Hlog. intros input d log [Hd Hlog]. unfold readByte.
  destruct (readByte_state_cases input invokeStatelessCallback
              record_payload d log)
    as [[He ->] | [[He ->] | [(He & Hb & Hc & Hl & ->) | [[He ->] | [He ->]]]]];
    simpl.
  - split; [| exact Hlog].
    apply Forall_app. split; [exact Hd |].
    constructor; [apply static_cast_range | constructor].
  - split; [constructor | exact Hlog].
  - split; [constructor |].
    unfold invokeStatelessCallback, record_payload.
    apply Forall_app. split; [exact Hlog |].
    constructor; [| constructor].
    unfold payload. apply Forall_take. exact Hd.
  - split; assumption.
  - split; [| exact Hlog].
    apply Forall_app. split; [exact Hd |].
    constructor; [apply static_cast_range | constructor].
Qed.

Lemma read_buffers_bytes_witness :
  (Forall (fun x => 0 <= x < 256) (m_bytes StreamDecoder_new) /\
   Forall (Forall (fun x => 0 <= x < 256)) []) /\
  Forall (fun x => 0 <= x < 256)
         (m_bytes (fst (read (byte_consts := s101_bytes) (crc16 := x25_crc)
                          [0xFE; 0x101; -1; 0xFD; 0x2FF] record_payload
                          StreamDecoder_new []))).
Proof.
  assert (H1 : Forall (fun x => 0 <= x < 256) (m_bytes StreamDecoder_new))
    by constructor.
  assert (H2 : Forall (Forall (fun x => 0 <= x < 256)) (@nil (list Z)))
    by constructor.
  split; [exact (conj H1 H2) |].
  exact (proj1 (read_buffers_bytes
                  (byte_consts := s101_bytes) (crc16 := x25_crc)
                  [0xFE; 0x101; -1; 0xFD; 0x2FF] StreamDecoder_new [] H1 H2)).
Defined.

(** One step keeps the running checksum that of the buffer. *)
Lemma readByte_keeps_crc_of_buffer
    {byte_consts : Byte} {crc16 : Crc16} {W : Type} (input : Z)
    (callback : list Z -> W -> W) (d : StreamDecoder) (w : W) :
  0 <= XOR < 256 ->
  m_crc d = crc_of (m_bytes d) ->
  m_crc (fst (readByte input callback d w)) =
    crc_of (m_bytes (fst (readByte input callback d w))).
Proof.
  intros Hx Hd. unfold readByte.
  destruct (readByte_state_cases input invokeStatelessCallback callback d w)
    as [[He ->] | [[He ->] | [(He & Hb & Hc & Hl & ->) | [[He ->] | [He ->]]]]];
    simpl; try reflexivity; try exact Hd.
  - rewrite (static_cast_byte (Z.lxor (static_cast input) XOR))
      by (apply lxor_byte; [apply static_cast_range | exact Hx]).
    rewrite crc_of_snoc, Hd. reflexivity.
  - rewrite crc_of_snoc, Hd. reflexivity.
Qed.

(** X3.  No payload is delivered unchecked.  Take a run from a state whose
    checksum is that of its buffer, and any point of it: the input [pre]
    has been read and [b] is read next.  If reading [b] invokes the
    callback, then the buffer as it stands at that point folds to 0xF0B8,
    and it is the payload handed to the callback followed by two more
    bytes, its own last two. *)
Theorem read_delivers_only_checked_payloads
    {byte_consts : Byte} {crc16 : Crc16} (pre : list Z) (b : Z)
    (d : StreamDecoder) (log : list (list Z)) :
  0 <= XOR < 256 ->
  m_crc d = crc_of (m_bytes d) ->
  snd (readByte b record_payload
         (fst (read pre record_payload d log))
         (snd (read pre record_payload d log)))
    <> snd (read pre record_payload d log) ->
  crc_of (m_bytes (fst (read pre record_payload d log))) = 0xF0B8 /\
  exists p c1 c2,
    m_bytes (fst (read pre record_payload d log)) = p ++ [c1; c2] /\
    snd (readByte b record_payload
           (fst (read pre record_payload d log))
           (snd (read pre record_payload d log)))
      = snd (read pre record_payload d log) ++ [p].
Proof.
  intros Hx Hd.
  assert (Hd1 : m_crc (fst (read pre record_payload d log)) =
                crc_of (m_bytes (fst (read pre record_payload d log)))).
  { apply (read_invariant (fun d _ => m_crc d = crc_of (m_bytes d)));
      [| exact Hd].
    intros input d0 w0 H0. apply readByte_keeps_crc_of_buffer; assumption. }
  set (d1 := fst (read pre record_payload d log)) in *.
  set (log1 := snd (read pre record_payload d log)) in *.
  unfold readByte.
  destruct (readByte_state_cases b invokeStatelessCallback
              record_payload d1 log1)
    as [[He ->] | [[He ->] | [(He & Hb & Hc & Hl & ->) | [[He ->] | [He ->]]]]];
    simpl; intros Hinvoked; try (exfalso; apply Hinvoked; reflexivity).
  split; [rewrite <- Hd1; exact Hc |].
  destruct (split_last_two (m_bytes d1) Hl) as (c1 & c2 & Hsplit).
  exists (payload d1), c1, c2. split; [exact Hsplit | reflexivity].
Qed.

Lemma read_delivers_only_checked_payloads_witness :
  (0 <= XOR (Byte := s101_bytes) < 256 /\
   m_crc StreamDecoder_new = crc_of (crc16 := x25_crc)
                               (m_bytes StreamDecoder_new) /\
   snd (readByte (byte_consts := s101_bytes) (crc16 := x25_crc)
          0xFF record_payload
          (fst (read (byte_consts := s101_bytes) (crc16 := x25_crc)
                  [0xFE; 0x01; 0x02; 0x8D; 0x35] record_payload
                  StreamDecoder_new []))
          (snd (read (byte_consts := s101_bytes) (crc16 := x25_crc)
                  [0xFE; 0x01; 0x02; 0x8D; 0x35] record_payload
                  StreamDecoder_new [])))
     <> snd (read (byte_consts := s101_bytes) (crc16 := x25_crc)
               [0xFE; 0x01; 0x02; 0x8D; 0x35] record_payload
               StreamDecoder_new [])) /\
  crc_of (crc16 := x25_crc)
    (m_bytes (fst (read (byte_consts := s101_bytes) (crc16 := x25_crc)
                     [0xFE; 0x01; 0x02; 0x8D; 0x35] record_payload
                     StreamDecoder_new []))) = 0xF0B8.
Proof.
  assert (H1 : 0 <= XOR (Byte := s101_bytes) < 256) by (simpl; lia).
  assert (H2 : m_crc StreamDecoder_new =
               crc_of (crc16 := x25_crc) (m_bytes StreamDecoder_new))
    by reflexivity.
  assert (H3 : snd (readByte (byte_consts := s101_bytes) (crc16 := x25_crc)
                      0xFF record_payload
                      (fst (read (byte_consts := s101_bytes)
                              (crc16 := x25_crc)
                              [0xFE; 0x01; 0x02; 0x8D; 0x35] record_payload
                              StreamDecoder_new []))
                      (snd (read (byte_consts := s101_bytes)
                              (crc16 := x25_crc)
                              [0xFE; 0x01; 0x02; 0x8D; 0x35] record_payload
                              StreamDecoder_new [])))
               <> snd (read (byte_consts := s101_bytes) (crc16 := x25_crc)
                         [0xFE; 0x01; 0x02; 0x8D; 0x35] record_payload
                         StreamDecoder_new []))
    by (vm_compute; discriminate).
  split; [exact (conj H1 (conj H2 H3)) |].
  exact (proj1 (read_delivers_only_checked_payloads
                  (byte_consts := s101_bytes) (crc16 := x25_crc)
                  [0xFE; 0x01; 0x02; 0x8D; 0x35] 0xFF StreamDecoder_new []
                  H1 H2 H3)).
Defined.

(** X4.  The callback is invoked only for end markers and at most once for
    each: a run only appends to the record of invocations, and appends no
    more payloads than the input has elements that read as [Byte::EoF]; an
    input without any invokes nothing. *)
Theorem read_invokes_at_most_once_per_EoF
    {byte_consts : Byte} {crc16 : Crc16} (range : list Z)
    (d : StreamDecoder) (log : list (list Z)) :
  exists added,
    snd (read range record_payload d log) = log ++ added /\
    (length added <= count_EoF range)%nat.
Proof.
  revert d log. induction range as [| b range IH]; intros d log.
  - exists []. simpl. rewrite app_nil_r. split; [reflexivity | lia].
  - assert (Hstep : exists one,
              snd (readByte b record_payload d log) = log ++ one /\
              (length one <= if (static_cast b =? EoF)%Z then 1 else 0)%nat).
    { unfold readByte.
      destruct (readByte_state_cases b invokeStatelessCallback
                  record_payload d log)
        as [[He ->] | [[He ->] | [(He & Hb & Hc & Hl & ->)
                                 | [[He ->] | [He ->]]]]];
        simpl;
        try (exists []; rewrite app_nil_r; split; [reflexivity | simpl; lia]).
      exists [payload d]. unfold invokeStatelessCallback, record_payload.
      split; [reflexivity |]. rewrite Hb, Z.eqb_refl. simpl. lia. }
    destruct Hstep as (one & Hone & Hlen).
    simpl. destruct (readByte b record_payload d log) as [d1 log1].
    simpl in Hone. subst log1.
    destruct (IH d1 (log ++ one)) as (added & Hadded & Hcount).
    exists (one ++ added). rewrite Hadded, <- app_assoc.
    split; [reflexivity |].
    rewrite length_app. unfold count_EoF in *. simpl.
    destruct (static_cast b =? EoF); simpl; lia.
Qed.

(** ** Escaping *)

Lemma read_cons {byte_consts : Byte} {crc16 : Crc16} {W : Type}
    (b : Z) (range : list Z) (callback : list Z -> W -> W)
    (d : StreamDecoder) (w : W) :
  read (b :: range) callback d w =
    read range callback (fst (readByte b callback d w))
                        (snd (readByte b callback d w)).
Proof. simpl. destruct (readByte b callback d w). reflexivity. Qed.

Lemma s101_bytes_ok : byte_constants_ok (byte_consts := s101_bytes).
Proof. unfold byte_constants_ok. simpl. lia. Qed.

(** One data byte in its wire form, escaped or not, is one byte more in the
    buffer and in the checksum. *)
Lemma read_stuff_byte {byte_consts : Byte} {crc16 : Crc16} {W : Type}
    (must_escape : Z -> bool) (x : Z) (rest : list Z)
    (callback : list Z -> W -> W) (d : StreamDecoder) (w : W) :
  byte_constants_ok ->
  (forall y, is_marker y = true -> must_escape y = true) ->
  m_escape d = false ->
  0 <= x < 256 ->
  read (stuff_byte must_escape x ++ rest) callback d w =
    read rest callback
      {| m_bytes := m_bytes d ++ [x]; m_escape := false;
         m_crc := Crc16_add (m_crc d) x |} w.
Proof.
  intros ((Hbof & Heof & Hce & Hxor) & Hbe & Hbc & Hec) Hcover He Hx.
  unfold stuff_byte. destruct (must_escape x) eqn:Hm.
  - assert (Hcb : CE <> BoF) by (intros E; apply Hbc; symmetry; exact E).
    assert (Hcf : CE <> EoF) by (intros E; apply Hec; symmetry; exact E).
    simpl app. rewrite read_cons. unfold readByte at 1 2.
    rewrite (readByte_state_CE CE _ _ d w He (static_cast_byte CE Hce)
               Hcb Hcf).
    simpl fst. simpl snd. rewrite read_cons. unfold readByte.
    rewrite readByte_state_escaped by reflexivity.
    simpl fst. simpl snd. simpl m_bytes. simpl m_crc.
    rewrite (static_cast_byte (Z.lxor x XOR))
      by (apply lxor_byte; assumption).
    rewrite lxor_twice, (static_cast_byte x) by exact Hx.
    reflexivity.
  - assert (Hplain : is_marker x = false).
    { destruct (is_marker x) eqn:Hmk; [| reflexivity].
      rewrite (Hcover x Hmk) in Hm. discriminate. }
    simpl app. rewrite read_cons. unfold readByte.
    rewrite readByte_state_data
      by (try rewrite (static_cast_byte x) by exact Hx; assumption).
    simpl fst. simpl snd. rewrite (static_cast_byte x) by exact Hx.
    reflexivity.
Qed.

(** The wire form of a run of bytes, element by element, with more input
    behind it. *)
Lemma read_stuff_run
    {byte_consts : Byte} {crc16 : Crc16} {W : Type}
    (must_escape : Z -> bool) (data rest : list Z)
    (callback : list Z -> W -> W) (d : StreamDecoder) (w : W) :
  byte_constants_ok ->
  (forall y, is_marker y = true -> must_escape y = true) ->
  m_escape d = false ->
  Forall (fun x => 0 <= x < 256) data ->
  read (stuff must_escape data ++ rest) callback d w =
    read rest callback
      {| m_bytes := m_bytes d ++ data; m_escape := false;
         m_crc := fold_left Crc16_add data (m_crc d) |} w.
Proof.
  intros Hok Hcover He Hdata. revert d He.
  induction Hdata as [| x data Hx _ IH]; intros d He.
  - simpl. rewrite app_nil_r. destruct d; simpl in *. subst. reflexivity.
  - unfold stuff. simpl flat_map. fold (stuff must_escape data).
    rewrite <- app_assoc.
    rewrite (read_stuff_byte must_escape x _ callback d w Hok Hcover He Hx).
    rewrite IH by reflexivity. simpl. rewrite <- app_assoc. reflexivity.
Qed.

(** X5.  An escape pair stands for one data byte, marker or not: from a
    state that is not escape-pending, the two inputs [CE] and [x XOR
    Byte::XOR] leave [x] appended to the buffer and folded into the
    checksum, the escape flag clear again, and the callback not invoked. *)
Theorem read_escape_pair_buffers_byte
    {byte_consts : Byte} {crc16 : Crc16} {W : Type} (x : Z)
    (callback : list Z -> W -> W) (d : StreamDecoder) (w : W) :
  byte_constants_ok ->
  m_escape d = false ->
  0 <= x < 256 ->
  read [CE; Z.lxor x XOR] callback d w =
    ({| m_bytes := m_bytes d ++ [x]; m_escape := false;
        m_crc := Crc16_add (m_crc d) x |}, w).
Proof.
  intros Hok He Hx.
  pose proof (read_stuff_byte (fun _ => true) x [] callback d w Hok
                (fun _ _ => eq_refl) He Hx) as Hpair.
  unfold stuff_byte in Hpair. simpl app in Hpair. exact Hpair.
Qed.

Lemma read_escape_pair_buffers_byte_witness :
  (byte_constants_ok (byte_consts := s101_bytes) /\
   m_escape partial_01_02 = false /\ 0 <= 0xFF < 256) /\
  read (byte_consts := s101_bytes) (crc16 := x25_crc)
       [0xFD; Z.lxor 0xFF 0x20] record_payload partial_01_02 [] =
    ({| m_bytes := [0x01; 0x02] ++ [0xFF]; m_escape := false;
        m_crc := x25_add (m_crc partial_01_02) 0xFF |}, []).
Proof.
  assert (H2 : m_escape partial_01_02 = false) by reflexivity.
  assert (H3 : 0 <= 0xFF < 256) by lia.
  split; [exact (conj s101_bytes_ok (conj H2 H3)) |].
  exact (read_escape_pair_buffers_byte
           (byte_consts := s101_bytes) (crc16 := x25_crc) 0xFF
           record_payload partial_01_02 [] s101_bytes_ok H2 H3).
Defined.

(** X6.  Byte stuffing is undone: for a sender that escapes at least the
    three markers, the wire form of any sequence of bytes, read from a state
    that is not escape-pending, appends exactly that sequence to the buffer,
    folds it into the checksum and invokes nothing. *)
Theorem read_stuffed_bytes
    {byte_consts : Byte} {crc16 : Crc16} {W : Type}
    (must_escape : Z -> bool) (data : list Z)
    (callback : list Z -> W -> W) (d : StreamDecoder) (w : W) :
  byte_constants_ok ->
  (forall y, is_marker y = true -> must_escape y = true) ->
  m_escape d = false ->
  Forall (fun x => 0 <= x < 256) data ->
  read (stuff must_escape data) callback d w =
    ({| m_bytes := m_bytes d ++ data; m_escape := false;
        m_crc := fold_left Crc16_add data (m_crc d) |}, w).
Proof.
  intros Hok Hcover He Hdata.
  rewrite <- (app_nil_r (stuff must_escape data)).
  rewrite (read_stuff_run must_escape data [] callback d w Hok Hcover He
             Hdata).
  reflexivity.
Qed.

Lemma read_stuffed_bytes_witness :
  (byte_constants_ok (byte_consts := s101_bytes) /\
   (forall y, is_marker (byte_consts := s101_bytes) y = true ->
              is_marker (byte_consts := s101_bytes) y = true) /\
   m_escape StreamDecoder_new = false /\
   Forall (fun x => 0 <= x < 256) [0x01; 0xFE; 0xFD; 0xFF; 0x02]) /\
  m_bytes (fst (read (byte_consts := s101_bytes) (crc16 := x25_crc)
                  (stuff (byte_consts := s101_bytes)
                     (is_marker (byte_consts := s101_bytes))
                     [0x01; 0xFE; 0xFD; 0xFF; 0x02])
                  record_payload StreamDecoder_new [])) =
    [0x01; 0xFE; 0xFD; 0xFF; 0x02].
Proof.
  assert (H2 : forall y, is_marker (byte_consts := s101_bytes) y = true ->
                         is_marker (byte_consts := s101_bytes) y = true)
    by (intros y Hy; exact Hy).
  assert (H3 : m_escape StreamDecoder_new = false) by reflexivity.
  assert (H4 : Forall (fun x => 0 <= x < 256) [0x01; 0xFE; 0xFD; 0xFF; 0x02])
    by (repeat constructor; lia).
  split; [exact (conj s101_bytes_ok (conj H2 (conj H3 H4))) |].
  rewrite (read_stuffed_bytes
             (byte_consts := s101_bytes) (crc16 := x25_crc)
             (is_marker (byte_consts := s101_bytes))
             [0x01; 0xFE; 0xFD; 0xFF; 0x02] record_payload
             StreamDecoder_new [] s101_bytes_ok H2 H3 H4).
  reflexivity.
Defined.

(** ** Whole frames *)

(** X7.  A whole frame, from any state that is not escape-pending: the
    start marker, the wire form of [data] and two checksum bytes, the end
    marker.  The callback is invoked exactly when data and checksum bytes
    fold to 0xF0B8, then once and with [data] itself, marker values in it
    included; in either case the decoder is the new one afterwards.  What
    was buffered before the start marker plays no part. *)
Theorem read_stuffed_frame
    {byte_consts : Byte} {crc16 : Crc16} {W : Type}
    (must_escape : Z -> bool) (data : list Z) (c1 c2 : Z)
    (callback : list Z -> W -> W) (d : StreamDecoder) (w : W) :
  byte_constants_ok ->
  (forall y, is_marker y = true -> must_escape y = true) ->
  m_escape d = false ->
  Forall (fun x => 0 <= x < 256) data ->
  0 <= c1 < 256 ->
  0 <= c2 < 256 ->
  read (BoF :: stuff must_escape (data ++ [c1; c2]) ++ [EoF]) callback d w =
    (StreamDecoder_new,
     if crc_of (data ++ [c1; c2]) =? 0xF0B8 then callback data w else w).
Proof.
  intros Hok Hcover He Hdata Hc1 Hc2.
  pose proof Hok as ((Hbof & Heof & Hce & Hxor) & Hbe & Hbc & Hec).
  assert (Hall : Forall (fun x => 0 <= x < 256) (data ++ [c1; c2])).
  { apply Forall_app. split; [exact Hdata |]. repeat constructor; lia. }
  rewrite read_cons. unfold readByte at 1 2.
  rewrite (readByte_state_BoF BoF _ _ d w He (static_cast_byte BoF Hbof)).
  simpl fst. simpl snd.
  rewrite (read_stuff_run must_escape (data ++ [c1; c2]) [EoF] callback
             StreamDecoder_new w Hok Hcover eq_refl Hall).
  rewrite read_cons. unfold readByte.
  rewrite readByte_state_EoF
    by (try reflexivity; try (apply static_cast_byte; exact Heof);
        intros E; apply Hbe; symmetry; exact E).
  simpl read. simpl m_crc. simpl m_bytes. unfold payload. simpl m_bytes.
  fold (crc_of (data ++ [c1; c2])).
  assert (Hlen : (1 <? length (data ++ [c1; c2]))%nat = true).
  { apply Nat.ltb_lt. rewrite length_app. simpl. lia. }
  rewrite Hlen, andb_true_r.
  rewrite (take_app_length' data [c1; c2])
    by (rewrite length_app; simpl; lia).
  reflexivity.
Qed.

Lemma read_stuffed_frame_witness :
  (byte_constants_ok (byte_consts := s101_bytes) /\
   (forall y, is_marker (byte_consts := s101_bytes) y = true ->
              is_marker (byte_consts := s101_bytes) y = true) /\
   m_escape partial_09 = false /\
   Forall (fun x => 0 <= x < 256) [0x01; 0xFE; 0x02] /\
   0 <= 0x1A < 256 /\ 0 <= 0x59 < 256) /\
  read (byte_consts := s101_bytes) (crc16 := x25_crc)
       (BoF (Byte := s101_bytes)
          :: stuff (byte_consts := s101_bytes)
               (is_marker (byte_consts := s101_bytes))
               ([0x01; 0xFE; 0x02] ++ [0x1A; 0x59])
          ++ [EoF (Byte := s101_bytes)])
       record_payload partial_09 [] =
    (StreamDecoder_new, [[0x01; 0xFE; 0x02]]).
Proof.
  assert (H2 : forall y, is_marker (byte_consts := s101_bytes) y = true ->
                         is_marker (byte_consts := s101_bytes) y = true)
    by (intros y Hy; exact Hy).
  assert (H3 : m_escape partial_09 = false) by reflexivity.
  assert (H4 : Forall (fun x => 0 <= x < 256) [0x01; 0xFE; 0x02])
    by (repeat constructor; lia).
  assert (H5 : 0 <= 0x1A < 256) by lia.
  assert (H6 : 0 <= 0x59 < 256) by lia.
  split; [exact (conj s101_bytes_ok (conj H2 (conj H3 (conj H4 (conj H5 H6)))))
         |].
  rewrite (read_stuffed_frame
             (byte_consts := s101_bytes) (crc16 := x25_crc)
             (is_marker (byte_consts := s101_bytes))
             [0x01; 0xFE; 0x02] 0x1A 0x59 record_payload partial_09 []
             s101_bytes_ok H2 H3 H4 H5 H6).
  reflexivity.
Defined.

(** X8.  A start marker resynchronises: whatever was fed before it, as
    long as the decoder is not escape-pending when the marker arrives, the
    rest of the input is decoded as by a new decoder; only the world the
    callback left behind carries over. *)
Theorem read_resynchronises_on_BoF
    {byte_consts : Byte} {crc16 : Crc16} {W : Type}
    (pre rest : list Z) (b : Z)
    (callback : list Z -> W -> W) (d : StreamDecoder) (w : W) :
  m_escape (fst (read pre callback d w)) = false ->
  static_cast b = BoF ->
  read (pre ++ b :: rest) callback d w =
    read rest callback StreamDecoder_new (snd (read pre callback d w)).
Proof.
  intros He Hb. rewrite read_app, read_cons. unfold readByte.
  rewrite (readByte_state_BoF b _ _ _ _ He Hb). reflexivity.
Qed.

Lemma read_resynchronises_on_BoF_witness :
  (m_escape (fst (read (byte_consts := s101_bytes) (crc16 := x25_crc)
                    [0x07; 0x08; 0xFF; 0x42] record_payload
                    partial_01_02 [])) = false /\
   static_cast 0xFE = BoF (Byte := s101_bytes)) /\
  read (byte_consts := s101_bytes) (crc16 := x25_crc)
       ([0x07; 0x08; 0xFF; 0x42] ++ 0xFE :: [0x01; 0x02; 0x8D; 0x35; 0xFF])
       record_payload partial_01_02 [] =
  read (byte_consts := s101_bytes) (crc16 := x25_crc)
       [0x01; 0x02; 0x8D; 0x35; 0xFF] record_payload StreamDecoder_new
       (snd (read (byte_consts := s101_bytes) (crc16 := x25_crc)
               [0x07; 0x08; 0xFF; 0x42] record_payload partial_01_02 [])).
Proof.
  assert (H1 : m_escape (fst (read (byte_consts := s101_bytes)
                                (crc16 := x25_crc)
                                [0x07; 0x08; 0xFF; 0x42] record_payload
                                partial_01_02 [])) = false)
    by (vm_compute; reflexivity).
  assert (H2 : static_cast 0xFE = BoF (Byte := s101_bytes)) by reflexivity.
  split; [exact (conj H1 H2) |].
  exact (read_resynchronises_on_BoF
           (byte_consts := s101_bytes) (crc16 := x25_crc)
           [0x07; 0x08; 0xFF; 0x42] [0x01; 0x02; 0x8D; 0x35; 0xFF] 0xFE
           record_payload partial_01_02 [] H1 H2).
Defined.

(** ** The two overloads, and the size of the buffer *)

(** X9.  The caller state of the four-argument [read] reaches every
    invocation of the callback unchanged and touches nothing else: the run
    is the three-argument [read] with the state bound into the callback. *)
Theorem read_state_binds_state
    {byte_consts : Byte} {crc16 : Crc16} {W S : Type} (range : list Z)
    (callback : list Z -> S -> W -> W) (state : S)
    (d : StreamDecoder) (w : W) :
  read_state range callback state d w =
    read range (fun payload => callback payload state) d w.
Proof.
  revert d w. induction range as [| b range IH]; intros d w.
  - reflexivity.
  - assert (Hstep : readByte b (fun payload => callback payload state) d w =
                    readByte_state b callback state d w) by reflexivity.
    simpl. rewrite Hstep.
    destruct (readByte_state b callback state d w) as [d1 w1]. apply IH.
Qed.

(** X10.  Each input element adds at most one byte to the buffer: after a
    run over [range] the buffer is at most [length range] longer than
    before. *)
Theorem read_buffer_growth
    {byte_consts : Byte} {crc16 : Crc16} {W : Type} (range : list Z)
    (callback : list Z -> W -> W) (d : StreamDecoder) (w : W) :
  (length (m_bytes (fst (read range callback d w)))
   <= length (m_bytes d) + length range)%nat.
Proof.
  revert d w. induction range as [| b range IH]; intros d w.
  - simpl. lia.
  - rewrite read_cons.
    specialize (IH (fst (readByte b callback d w))
                   (snd (readByte b callback d w))).
    assert (Hstep : (length (m_bytes (fst (readByte b callback d w)))
                     <= S (length (m_bytes d)))%nat).
    { unfold readByte.
      destruct (readByte_state_cases b invokeStatelessCallback callback d w)
        as [[He ->] | [[He ->] | [(He & Hb & Hc & Hl & ->)
                                 | [[He ->] | [He ->]]]]];
        simpl; try rewrite length_app; simpl; lia. }
    simpl length. lia.
Qed.

End S101_Streams.

(* ===================================================================== *)
(** * Part VI : more on the typed arguments of an invocation              *)
(* ===================================================================== *)

Module Glow_Invocation_More.
Import Glow Glow_Properties.
Local Open Scope dom_scope.

Section Loops.
Context {values : Values} {tags : GlowTags}.
Import GlowInvocation.

(** The loop of [typedArguments] reads the store and appends to the
    destination, one value for each count. *)
Lemma typedArguments_loop_inv (range : list addr) :
  forall dest size h dest' n h',
    typedArguments_loop range dest size h = Some ((dest', n), h') ->
    h' = h /\
    exists added,
      dest' = dest ++ added /\ n = (size + length added)%nat /\
      (length added <= length range)%nat.
Proof.
  induction range as [| k range IH]; intros dest size h dest' n h'; simpl.
  - unfold ret. intros [= <- <- <-]. split; [reflexivity |].
    exists []. rewrite app_nil_r. simpl. split; [reflexivity |]. lia.
  - unfold bind, deref. destruct (h !! k) as [[tag value | ty tag ks] |];
      [| | discriminate].
    + intros Hrun. destruct (IH _ _ _ _ _ _ Hrun) as (-> & added & -> & -> & Hle).
      split; [reflexivity |].
      exists (Value_of_ber value :: added). rewrite <- app_assoc. simpl.
      split; [reflexivity |]. lia.
    + intros Hrun. destruct (IH _ _ _ _ _ _ Hrun) as (-> & added & -> & -> & Hle).
      split; [reflexivity |].
      exists added. split; [reflexivity |]. lia.
Qed.

(** After [setTypedArguments] the arguments container is not the invocation
    itself. *)
Lemma arguments_container_not_this (h : Heap) (this container : addr)
    (found : option addr) (n : Node) :
  h !! this = Some n ->
  (forall a, found = Some a ->
     a <> this /\ exists ty t ks, h !! a = Some (Container ty t ks)) ->
  (found = None -> h !! container = None) ->
  (forall a, found = Some a -> container = a) ->
  container <> this.
Proof.
  intros Hthis Hshape Hnew Hold. destruct found as [a |].
  - rewrite (Hold a eq_refl). exact (proj1 (Hshape a eq_refl)).
  - intros ->. rewrite (Hnew eq_refl) in Hthis. discriminate.
Qed.

End Loops.

(** X11.  [typedArguments] only reads: whenever it returns, the store is
    the one it was given, the destination holds what it held before followed
    by the values written, and the returned count is the number of values
    written, never more than the arguments container has children. *)
Theorem typedArguments_reads_only
    {values : Values} {tags : GlowTags}
    (h h' : Heap) (this : addr) (dest dest' : list Value) (n : nat) :
  GlowInvocation.typedArguments this dest h = Some ((dest', n), h') ->
  h' = h /\
  (exists added, dest' = dest ++ added /\ length added = n) /\
  (forall container ty t children,
     GlowInvocation.arguments_const this h = Some (Some container, h) ->
     h !! container = Some (Container ty t children) ->
     (n <= length children)%nat).
Proof.
  unfold GlowInvocation.typedArguments, bind.
  destruct (GlowInvocation.arguments_const this h) as [[found h0] |] eqn:Hargs;
    [| discriminate].
  pose proof (slot_const_frame _ _ _ _ _ Hargs) as ->.
  destruct found as [container |].
  - unfold Container_children, bind, deref.
    destruct (h !! container) as [[tag value | ty t children] |] eqn:Hc;
      try discriminate.
    simpl. intros Hrun.
    destruct (typedArguments_loop_inv _ _ _ _ _ _ _ Hrun)
      as (-> & added & -> & -> & Hle).
    split; [reflexivity |].
    split; [exists added; split; reflexivity |].
    intros container' ty' t' children' [= <-] Hc'.
    rewrite Hc in Hc'. injection Hc' as <- <- <-. simpl. exact Hle.
  - unfold ret. intros [= <- <- <-].
    split; [reflexivity |].
    split; [exists []; rewrite app_nil_r; split; reflexivity |].
    intros container ty t children [=].
Qed.

Lemma typedArguments_reads_only_witness :
  GlowInvocation.typedArguments (values := integer_values)
    (tags := sample_tags) 1%positive [5%Z] sample_invocation =
    Some (([5%Z; 7%Z; 8%Z], 2%nat), sample_invocation) /\
  exists added : list Z,
    [5%Z; 7%Z; 8%Z] = [5%Z] ++ added /\ length added = 2%nat.
Proof.
  assert (H1 : GlowInvocation.typedArguments (values := integer_values)
                 (tags := sample_tags) 1%positive [5%Z] sample_invocation =
               Some (([5%Z; 7%Z; 8%Z], 2%nat), sample_invocation))
    by (vm_compute; reflexivity).
  split; [exact H1 |].
  exact (proj1 (proj2 (typedArguments_reads_only
                         (values := integer_values) (tags := sample_tags)
                         sample_invocation sample_invocation 1%positive
                         [5%Z] [5%Z; 7%Z; 8%Z] 2%nat H1))).
Defined.

(** X12.  The last call wins: after [setTypedArguments vs1] and then
    [setTypedArguments vs2] on an invocation that is a tree, the arguments
    container is the one the first call used or created, and
    [typedArguments] reads back the values of [vs2] alone, each taken
    through the two conversions, with count [length vs2]. *)
Theorem setTypedArguments_last_call_wins
    {values : Values} {tags : GlowTags}
    (h : Heap) (this : addr) (found : option addr) (vs1 vs2 : list Value) :
  GlowInvocation.arguments_const this h = Some (found, h) ->
  (forall a, found = Some a ->
     a <> this /\ exists ty t ks, h !! a = Some (Container ty t ks)) ->
  exists h1 h2 container,
    GlowInvocation.setTypedArguments this vs1 h = Some (tt, h1) /\
    GlowInvocation.setTypedArguments this vs2 h1 = Some (tt, h2) /\
    GlowInvocation.arguments_const this h1 = Some (Some container, h1) /\
    GlowInvocation.arguments_const this h2 = Some (Some container, h2) /\
    GlowInvocation.typedArguments this [] h2 =
      Some ((map (fun v => Value_of_ber (toBerValue v)) vs2, length vs2), h2).
Proof.
  intros Hargs Hshape.
  destruct (setTypedArguments_post h this found vs1 Hargs Hshape)
    as (h1 & c & type & leaves1 & Hrun1 & Hargs1 & Hc1 & _ & _ & _
        & Hnew & Hold & _ & (ty & t & kids & Hthis & _)).
  assert (Hne : c <> this)
    by exact (arguments_container_not_this h this c found _ Hthis Hshape
                Hnew Hold).
  assert (Hshape1 : forall a, Some c = Some a ->
            a <> this /\ exists ty t ks, h1 !! a = Some (Container ty t ks)).
  { intros a [= <-]. split; [exact Hne | eauto]. }
  destruct (setTypedArguments_post h1 this (Some c) vs2 Hargs1 Hshape1)
    as (h2 & c2 & type2 & leaves2 & Hrun2 & Hargs2 & Hc2 & Hleaves2 & _ & _
        & _ & Hold2 & _).
  pose proof (Hold2 c eq_refl) as ->.
  destruct (leaf_values_of_leaves h2 leaves2 vs2 Hleaves2) as [Hv Hl].
  exists h1, h2, c.
  split; [exact Hrun1 |]. split; [exact Hrun2 |].
  split; [exact Hargs1 |]. split; [exact Hargs2 |].
  rewrite (typedArguments_spec h2 this c type2 _ leaves2 [] Hargs2 Hc2 Hl).
  rewrite Hv. simpl. rewrite length_map. reflexivity.
Qed.

Lemma setTypedArguments_last_call_wins_witness :
  (GlowInvocation.arguments_const (values := integer_values)
     (tags := sample_tags) 1%positive bare_invocation
     = Some (None, bare_invocation) /\
   (forall a, None = Some a ->
      a <> 1%positive /\
      exists ty t ks, bare_invocation !! a = Some (Container ty t ks))) /\
  exists h1 h2 container,
    GlowInvocation.setTypedArguments (values := integer_values)
      (tags := sample_tags) 1%positive [1%Z; 2%Z; 3%Z] bare_invocation
      = Some (tt, h1) /\
    GlowInvocation.setTypedArguments (values := integer_values)
      (tags := sample_tags) 1%positive [4%Z] h1 = Some (tt, h2) /\
    GlowInvocation.arguments_const (values := integer_values)
      (tags := sample_tags) 1%positive h1 = Some (Some container, h1) /\
    GlowInvocation.arguments_const (values := integer_values)
      (tags := sample_tags) 1%positive h2 = Some (Some container, h2) /\
    GlowInvocation.typedArguments (values := integer_values)
      (tags := sample_tags) 1%positive [] h2 = Some (([4%Z], 1%nat), h2).
Proof.
  assert (H1 : GlowInvocation.arguments_const (values := integer_values)
                 (tags := sample_tags) 1%positive bare_invocation
               = Some (None, bare_invocation))
    by (vm_compute; reflexivity).
  assert (H2 : forall a, @None addr = Some a ->
                 a <> 1%positive /\
                 exists ty t ks, bare_invocation !! a = Some (Container ty t ks))
    by (intros a [=]).
  split; [exact (conj H1 H2) |].
  exact (setTypedArguments_last_call_wins
           (values := integer_values) (tags := sample_tags)
           bare_invocation 1%positive None [1%Z; 2%Z; 3%Z] [4%Z] H1 H2).
Defined.

(** X13.  [setTypedArguments] touches the invocation, its arguments
    container and what that container owned, and nothing else: an object
    that is not the invocation, not the container and not below the
    container is as it was; the invocation keeps its type, its tag and its
    children in their order, with the arguments container appended when it
    had to be created. *)
Theorem setTypedArguments_frame
    {values : Values} {tags : GlowTags}
    (h : Heap) (this : addr) (found : option addr) (range : list Value) :
  GlowInvocation.arguments_const this h = Some (found, h) ->
  (forall a, found = Some a ->
     a <> this /\ exists ty t ks, h !! a = Some (Container ty t ks)) ->
  exists h' container,
    GlowInvocation.setTypedArguments this range h = Some (tt, h') /\
    GlowInvocation.arguments_const this h' = Some (Some container, h') /\
    (forall x n, h !! x = Some n -> x <> this -> x <> container ->
                 ~ descendant h container x ->
                 h' !! x = Some n) /\
    exists ty t kids,
      h !! this = Some (Container ty t kids) /\
      h' !! this = Some (Container ty t
                           (match found with
                            | Some _ => kids
                            | None => kids ++ [container]
                            end)).
Proof.
  intros Hargs Hshape.
  destruct (setTypedArguments_post h this found range Hargs Hshape)
    as (h' & c & type & leaves & Hrun & Hargs' & Hc & _ & _ & _
        & _ & _ & Hframe & (ty & t & kids & Hthis & Hthis')).
  exists h', c.
  split; [exact Hrun |]. split; [exact Hargs' |].
  split; [| exists ty, t, kids; split; assumption].
  intros x n Hx Hxt Hxc _. exact (Hframe x n Hx Hxt Hxc).
Qed.

Lemma setTypedArguments_frame_witness :
  (GlowInvocation.arguments_const (values := integer_values)
     (tags := sample_tags) 1%positive invocation_with_id
     = Some (Some 3%positive, invocation_with_id) /\
   (forall a, Some 3%positive = Some a ->
      a <> 1%positive /\
      exists ty t ks, invocation_with_id !! a = Some (Container ty t ks))) /\
  exists h' container,
    GlowInvocation.setTypedArguments (values := integer_values)
      (tags := sample_tags) 1%positive [10%Z] invocation_with_id
      = Some (tt, h') /\
    GlowInvocation.arguments_const (values := integer_values)
      (tags := sample_tags) 1%positive h' = Some (Some container, h') /\
    (forall x n, invocation_with_id !! x = Some n ->
       x <> 1%positive -> x <> container ->
       ~ descendant invocation_with_id container x ->
       h' !! x = Some n).
Proof.
  assert (H1 : GlowInvocation.arguments_const (values := integer_values)
                 (tags := sample_tags) 1%positive invocation_with_id
               = Some (Some 3%positive, invocation_with_id))
    by (vm_compute; reflexivity).
  assert (H2 : forall a, Some 3%positive = Some a ->
                 a <> 1%positive /\
                 exists ty t ks,
                   invocation_with_id !! a = Some (Container ty t ks)).
  { intros a [= <-]. split; [discriminate |].
    eexists _, _, _. vm_compute. reflexivity. }
  split; [exact (conj H1 H2) |].
  destruct (setTypedArguments_frame
              (values := integer_values) (tags := sample_tags)
              invocation_with_id 1%positive (Some 3%positive) [10%Z] H1 H2)
    as (h' & container & Hrun & Hargs & Hframe & _).
  exists h', container.
  split; [exact Hrun |]. split; [exact Hargs | exact Hframe].
Defined.

(** On a tree with an identifier leaf beside the arguments: the leaf is not
    below the arguments container, and it is there, unchanged, after the
    call. *)
Example setTypedArguments_keeps_sibling :
  ~ descendant invocation_with_id 3%positive 2%positive /\
  (fun result =>
     match result with
     | Some (_, h') => h' !! 2%positive
     | None => None
     end)
    (GlowInvocation.setTypedArguments (values := integer_values)
       (tags := sample_tags) 1%positive [10%Z] invocation_with_id)
  = invocation_with_id !! 2%positive.
Proof.
  split; [| vm_compute; reflexivity].
  assert (Hbelow : forall c x, descendant invocation_with_id c x ->
                     c = 3%positive -> x = 4%positive).
  { intros c x Hd. induction Hd as [c type tag children x Hc Hin
                                   | c type tag children y x Hc Hin Hd IH];
      intros ->.
    - vm_compute in Hc. injection Hc as <- <- <-.
      apply list_elem_of_singleton in Hin. exact Hin.
    - vm_compute in Hc. injection Hc as <- <- <-.
      apply list_elem_of_singleton in Hin. subst y.
      inversion Hd as [? ? ? ? ? Hleaf | ? ? ? ? ? ? Hleaf];
        vm_compute in Hleaf; discriminate. }
  intros Hd. specialize (Hbelow _ _ Hd eq_refl). discriminate.
Qed.

(** X15.  [typedArguments] copies to the destination exactly the children
    of the arguments container that are [VariantLeaf] nodes, each converted
    by the constructor from a BER value, in child order, and returns how
    many it copied; a child that is not a leaf is passed over without
    failure and the store is left as it was.  The result depends on the
    invocation, its children, and the children of the arguments container
    only: a store that differs anywhere else, grandchildren included, gives
    the same.  Without an arguments container nothing is copied and 0 is
    returned.  After [setTypedArguments vs] it yields each value of [vs]
    taken through [toBerValue] and that constructor, in order, with count
    [length vs]. *)
Theorem typedArguments_copies_leaf_children
    {values : Values} {tags : GlowTags}
    (h : Heap) (this : addr) (found : option addr)
    (dest : list Value) (vs : list Value) :
  GlowInvocation.arguments_const this h = Some (found, h) ->
  (forall a, found = Some a ->
     a <> this /\ exists ty t ks, h !! a = Some (Container ty t ks)) ->
  (forall container type tag children,
     found = Some container ->
     h !! container = Some (Container type tag children) ->
     Forall (fun child => is_Some (h !! child)) children ->
     GlowInvocation.typedArguments this dest h =
       Some ((dest ++ GlowInvocation.leaf_values h children,
              length (GlowInvocation.leaf_values h children)), h) /\
     forall h2 ty t kids,
       h !! this = Some (Container ty t kids) ->
       h2 !! this = h !! this ->
       (forall k, k ∈ kids -> h2 !! k = h !! k) ->
       (forall k, k ∈ children -> h2 !! k = h !! k) ->
       GlowInvocation.typedArguments this dest h2 =
         Some ((dest ++ GlowInvocation.leaf_values h children,
                length (GlowInvocation.leaf_values h children)), h2)) /\
  (found = None ->
     GlowInvocation.typedArguments this dest h = Some ((dest, 0%nat), h)) /\
  exists h',
    GlowInvocation.setTypedArguments this vs h = Some (tt, h') /\
    GlowInvocation.typedArguments this [] h' =
      Some ((map (fun v => Value_of_ber (toBerValue v)) vs, length vs), h').
Proof.
  intros Hargs Hshape.
  split; [| split].
  - intros container type tag children -> Hc Hlive.
    split; [exact (typedArguments_spec _ _ _ _ _ _ dest Hargs Hc Hlive) |].
    intros h2 ty t kids Hthis Hthis2 Hkids Hchildren.
    destruct (slot_const_inv _ _ _ _ Hargs) as (ty' & t' & kids' & Ht' & Hfind).
    rewrite Hthis in Ht'. injection Ht' as <- <- <-.
    destruct (find_tag_found _ _ _ _ Hfind) as (Hin & _).
    assert (Hargs2 : GlowInvocation.arguments_const this h2 =
                       Some (Some container, h2)).
    { unfold GlowInvocation.arguments_const in *.
      apply (slot_const_transfer h); [exact Hargs | |].
      - intros ty0 t0 kids0 H0. rewrite Hthis2. exact H0.
      - intros ty0 t0 kids0 k n H0 Hk Hn.
        rewrite Hthis in H0. injection H0 as <- <- <-.
        rewrite (Hkids k Hk), Hn. reflexivity. }
    destruct (leaf_values_agree h h2 children Hchildren) as [Hv Hl].
    rewrite <- Hv.
    apply (typedArguments_spec h2 this container type tag children dest Hargs2).
    + rewrite (Hkids container Hin). exact Hc.
    + exact (Hl Hlive).
  - intros ->. exact (typedArguments_absent _ _ dest Hargs).
  - destruct (setTypedArguments_post h this found vs Hargs Hshape)
      as (h' & container & type & leaves & Hrun & Hargs' & Hc & Hleaves & _).
    destruct (leaf_values_of_leaves h' leaves vs Hleaves) as [Hv Hl].
    exists h'. split; [exact Hrun |].
    rewrite (typedArguments_spec h' this container type _ leaves []
               Hargs' Hc Hl).
    rewrite Hv. simpl. rewrite length_map. reflexivity.
Qed.

Lemma typedArguments_copies_leaf_children_witness :
  (GlowInvocation.arguments_const (values := integer_values)
     (tags := sample_tags) 1%positive sample_invocation
     = Some (Some 2%positive, sample_invocation) /\
   (forall a, Some 2%positive = Some a ->
      a <> 1%positive /\
      exists ty t ks, sample_invocation !! a = Some (Container ty t ks))) /\
  GlowInvocation.typedArguments (values := integer_values)
    (tags := sample_tags) 1%positive [] sample_invocation =
    Some (([] ++ GlowInvocation.leaf_values (values := integer_values)
                   sample_invocation [3%positive; 4%positive; 6%positive],
           length (GlowInvocation.leaf_values (values := integer_values)
                     sample_invocation [3%positive; 4%positive; 6%positive])),
          sample_invocation) /\
  exists h',
    GlowInvocation.setTypedArguments (values := integer_values)
      (tags := sample_tags) 1%positive [10%Z; 20%Z] sample_invocation
      = Some (tt, h') /\
    GlowInvocation.typedArguments (values := integer_values)
      (tags := sample_tags) 1%positive [] h' =
      Some (([10%Z; 20%Z], 2%nat), h').
Proof.
  assert (H1 : GlowInvocation.arguments_const (values := integer_values)
                 (tags := sample_tags) 1%positive sample_invocation
               = Some (Some 2%positive, sample_invocation))
    by (vm_compute; reflexivity).
  assert (H2 : forall a, Some 2%positive = Some a ->
                 a <> 1%positive /\
                 exists ty t ks,
                   sample_invocation !! a = Some (Container ty t ks)).
  { intros a [= <-]. split; [discriminate |].
    eexists _, _, _. vm_compute. reflexivity. }
  split; [exact (conj H1 H2) |].
  assert (Hc : sample_invocation !! 2%positive =
                 Some (Container Sequence (mkTag 2 1)
                         [3%positive; 4%positive; 6%positive]))
    by (vm_compute; reflexivity).
  assert (Hlive : Forall (fun child => is_Some (sample_invocation !! child))
                    [3%positive; 4%positive; 6%positive])
    by (repeat constructor; vm_compute; eauto).
  destruct (typedArguments_copies_leaf_children
              (values := integer_values) (tags := sample_tags)
              sample_invocation 1%positive (Some 2%positive) []
              [10%Z; 20%Z] H1 H2) as (Hfilter & _ & Hback).
  split; [| exact Hback].
  exact (proj1 (Hfilter 2%positive Sequence (mkTag 2 1)
                  [3%positive; 4%positive; 6%positive] eq_refl Hc Hlive)).
Defined.

End Glow_Invocation_More.

(* ===================================================================== *)
(** * Part VII : the typed collectors of a function node                  *)
(* ===================================================================== *)

Module Glow_Function_More.
Import Glow Glow_Properties.
Local Open Scope dom_scope.

Section Collect.
Context {values : Values} {tags : GlowTags}.
Import GlowFunctionBase.

Lemma TypeFilter_collect_spec (U : ContainerType) (range : list addr) :
  forall dest size h,
    Forall (fun child => is_Some (h !! child)) range ->
    TypeFilter_collect U range dest size h =
      Some ((dest ++ children_of_type U h range,
             (size + length (children_of_type U h range))%nat), h).
Proof.
  induction range as [| k range IH]; intros dest size h Hlive.
  - simpl. rewrite app_nil_r, Nat.add_0_r. reflexivity.
  - apply Forall_cons in Hlive as [[n Hk] Hlive].
    simpl. unfold bind. rewrite (deref_live _ _ _ Hk).
    unfold children_of_type. simpl. rewrite Hk.
    destruct n as [tag value | type tag children].
    + rewrite (IH _ _ _ Hlive). reflexivity.
    + destruct (decide (type = U)) as [-> | Hne].
      * rewrite bool_decide_eq_true_2 by reflexivity.
        rewrite (IH _ _ _ Hlive). unfold children_of_type. simpl.
        rewrite <- app_assoc. simpl. repeat f_equal. lia.
      * rewrite bool_decide_eq_false_2 by exact Hne.
        rewrite (IH _ _ _ Hlive). reflexivity.
Qed.

End Collect.

(** X14.  On a function node that has an arguments and a result sequence,
    [typedArguments] returns the children of the arguments sequence that
    are [GlowTupleItemDescription] nodes and [typedResult] those of the
    result sequence, each in child order behind what the destination held,
    with their number as the count; other children are passed over and the
    store is left as it was. *)
Theorem typed_collectors_filter_their_slot
    {values : Values} {tags : GlowTags}
    (h : Heap) (this arguments result : addr)
    (ty_a ty_r : ContainerType) (t_a t_r : Tag)
    (children_a children_r dest : list addr) :
  GlowFunctionBase.arguments_const this h = Some (Some arguments, h) ->
  GlowFunctionBase.result_const this h = Some (Some result, h) ->
  h !! arguments = Some (Container ty_a t_a children_a) ->
  h !! result = Some (Container ty_r t_r children_r) ->
  Forall (fun child => is_Some (h !! child)) children_a ->
  Forall (fun child => is_Some (h !! child)) children_r ->
  GlowFunctionBase.typedArguments this dest h =
    Some ((dest ++ GlowFunctionBase.children_of_type
                     TupleItemDescription h children_a,
           length (GlowFunctionBase.children_of_type
                     TupleItemDescription h children_a)), h) /\
  GlowFunctionBase.typedResult this dest h =
    Some ((dest ++ GlowFunctionBase.children_of_type
                     TupleItemDescription h children_r,
           length (GlowFunctionBase.children_of_type
                     TupleItemDescription h children_r)), h).
Proof.
  intros Ha Hr Hca Hcr Hla Hlr.
  split.
  - unfold GlowFunctionBase.typedArguments, bind. rewrite Ha.
    rewrite (Container_children_live _ _ _ _ _ Hca).
    rewrite (TypeFilter_collect_spec _ _ _ _ _ Hla). reflexivity.
  - unfold GlowFunctionBase.typedResult, bind. rewrite Hr.
    rewrite (Container_children_live _ _ _ _ _ Hcr).
    rewrite (TypeFilter_collect_spec _ _ _ _ _ Hlr). reflexivity.
Qed.

Lemma typed_collectors_filter_their_slot_witness :
  (GlowFunctionBase.arguments_const (values := integer_values)
     (tags := sample_tags) 1%positive sample_function
     = Some (Some 2%positive, sample_function) /\
   GlowFunctionBase.result_const (values := integer_values)
     (tags := sample_tags) 1%positive sample_function
     = Some (Some 3%positive, sample_function) /\
   sample_function !! 2%positive =
     Some (Container (values := integer_values) Sequence (mkTag 2 2)
             [4%positive; 5%positive; 6%positive]) /\
   sample_function !! 3%positive =
     Some (Container (values := integer_values) Sequence (mkTag 2 3)
             [7%positive]) /\
   Forall (fun child => is_Some (sample_function !! child))
          [4%positive; 5%positive; 6%positive] /\
   Forall (fun child => is_Some (sample_function !! child)) [7%positive]) /\
  GlowFunctionBase.typedArguments (values := integer_values)
    (tags := sample_tags) 1%positive [] sample_function =
    Some (([] ++ GlowFunctionBase.children_of_type (values := integer_values)
                   TupleItemDescription sample_function
                   [4%positive; 5%positive; 6%positive],
           length (GlowFunctionBase.children_of_type
                     (values := integer_values)
                     TupleItemDescription sample_function
                     [4%positive; 5%positive; 6%positive])),
          sample_function) /\
  GlowFunctionBase.children_of_type (values := integer_values)
    TupleItemDescription sample_function
    [4%positive; 5%positive; 6%positive] = [4%positive; 6%positive].
Proof.
  assert (H1 : GlowFunctionBase.arguments_const (values := integer_values)
                 (tags := sample_tags) 1%positive sample_function
               = Some (Some 2%positive, sample_function))
    by (vm_compute; reflexivity).
  assert (H2 : GlowFunctionBase.result_const (values := integer_values)
                 (tags := sample_tags) 1%positive sample_function
               = Some (Some 3%positive, sample_function))
    by (vm_compute; reflexivity).
  assert (H3 : sample_function !! 2%positive =
                 Some (Container (values := integer_values) Sequence
                         (mkTag 2 2) [4%positive; 5%positive; 6%positive]))
    by (vm_compute; reflexivity).
  assert (H4 : sample_function !! 3%positive =
                 Some (Container (values := integer_values) Sequence
                         (mkTag 2 3) [7%positive]))
    by (vm_compute; reflexivity).
  assert (H5 : Forall (fun child => is_Some (sample_function !! child))
                 [4%positive; 5%positive; 6%positive])
    by (repeat constructor; vm_compute; eauto).
  assert (H6 : Forall (fun child => is_Some (sample_function !! child))
                 [7%positive])
    by (repeat constructor; vm_compute; eauto).
  split; [exact (conj H1 (conj H2 (conj H3 (conj H4 (conj H5 H6))))) |].
  split; [| vm_compute; reflexivity].
  exact (proj1 (typed_collectors_filter_their_slot
                  (values := integer_values) (tags := sample_tags)
                  sample_function 1%positive 2%positive 3%positive
                  Sequence Sequence (mkTag 2 2) (mkTag 2 3)
                  [4%positive; 5%positive; 6%positive] [7%positive] []
                  H1 H2 H3 H4 H5 H6)).
Defined.

End Glow_Function_More.
